(** * chimera_conf: layered configuration resolution

    A shallow embedding of the [chimera_conf] package
    ([utilities.py], [chimera_form.py], [chimera_conf.py] and
    [config_builder.py]) together with the properties of its
    resolution pipeline: overlay file names, ordered loading, the
    recursive merge, the precedence of later layers, the declaration
    contract and the active-form registry.

    Python dictionaries with string keys are finite maps
    [gmap string value]; lists are [list]; exceptions are values of
    [exn] carried by the left side of a sum.  The last part models
    dictionaries as objects in a store, to speak about mutation. *)

From stdpp Require Import gmap strings list fin_maps.
From Stdlib Require Import ZArith Ascii.

#[local] Set Warnings "-register-all".

(** ** Python values *)

(** What [yaml.safe_load] can return and what a class attribute can
    hold: [None], scalars, sequences and mappings keyed by strings. *)
Inductive value : Type :=
| VNone
| VBool (b : bool)
| VInt (z : Z)
| VStr (s : string)
| VList (items : list value)
| VDict (items : gmap string value).

(** [isinstance(v, dict)], [isinstance(v, list)], [isinstance(v, str)],
    [v is None]. *)
Definition is_dict (v : value) : bool :=
  match v with VDict _ => true | _ => false end.

Definition is_list (v : value) : bool :=
  match v with VList _ => true | _ => false end.

Definition is_str (v : value) : bool :=
  match v with VStr _ => true | _ => false end.

Definition is_None (v : value) : bool :=
  match v with VNone => true | _ => false end.

(** ** Exceptions and the error monad *)

(** The exceptions the package raises itself, and two more classes
    for what its external collaborators raise besides: the resource
    reader with the YAML parser, and the pydantic constructor.  The
    collaborators may raise the built-in classes as well: a reader
    fails with a [ValueError] on an empty package path, and
    pydantic's validation error is a [ValueError]. *)
Inductive exn : Type :=
| NotImplementedError (msg : string)
| ValueError (msg : string)
| AttributeError (msg : string)
| SourceLoadFailure (text : string)
| ValidationFailure (text : string).

Definition result (A : Type) : Type := exn + A.

Definition ret {A} (a : A) : result A := inr a.
Definition raise {A} (e : exn) : result A := inl e.

Definition bind {A B} (m : result A) (k : A → result B) : result B :=
  match m with
  | inl e => inl e
  | inr a => k a
  end.

Declare Scope result_scope.
Delimit Scope result_scope with result.
Notation "x ←! m ; k" := (bind m (λ x, k))
  (at level 100, m at next level, right associativity) : result_scope.
#[local] Open Scope result_scope.

(** [str(e)]: the message an exception formats to. *)
Definition exn_str (e : exn) : string :=
  match e with
  | NotImplementedError msg | ValueError msg | AttributeError msg => msg
  | SourceLoadFailure text | ValidationFailure text => text
  end.

(** ** The string and path primitives of Python used by the package *)

Module Py.

(** [s.split(sep)] for a one-character separator: the pieces between
    the separators, never an empty list. *)
Fixpoint str_split (sep : ascii) (s : string) : list string :=
  match s with
  | EmptyString => [EmptyString]
  | String c rest =>
      if Ascii.eqb c sep then EmptyString :: str_split sep rest
      else match str_split sep rest with
           | [] => [String c EmptyString]
           | part :: parts => String c part :: parts
           end
  end.

(** [sep.join(parts)]. *)
Definition str_join (sep : string) (parts : list string) : string :=
  String.concat sep parts.

(** [parts[-1]] and [parts[:-1]]; [str_split] never yields [[]], so
    the default of [last] is not reached from the package. *)
Definition last_part (parts : list string) : string :=
  List.last parts EmptyString.

Definition init_parts (parts : list string) : list string :=
  List.removelast parts.

(** [s.replace(old, new)]: the occurrences of [old], leftmost first
    and not overlapping, become [new]; an empty [old] matches before
    every character and at the end. [skip] counts the characters of
    a match still to be dropped. *)
Fixpoint replace_from (old new : string) (skip : nat) (s : string) : string :=
  match s with
  | EmptyString => EmptyString
  | String c rest =>
      match skip with
      | S skip' => replace_from old new skip' rest
      | O =>
          if String.prefix old s
          then new +:+ replace_from old new (String.length old - 1) rest
          else String c (replace_from old new 0 rest)
      end
  end.

Fixpoint intersperse_all (new : string) (s : string) : string :=
  match s with
  | EmptyString => new
  | String c rest => new +:+ String c (intersperse_all new rest)
  end.

Definition str_replace (old new : string) (s : string) : string :=
  match old with
  | EmptyString => intersperse_all new s
  | _ => replace_from old new 0 s
  end.

(** [s.rstrip(c)]. *)
Fixpoint str_rstrip (c : ascii) (s : string) : string :=
  match s with
  | EmptyString => EmptyString
  | String a rest =>
      match str_rstrip c rest with
      | EmptyString => if Ascii.eqb a c then EmptyString else String a EmptyString
      | kept => String a kept
      end
  end.

(** [s == c * len(s)]. *)
Fixpoint all_chars (c : ascii) (s : string) : bool :=
  match s with
  | EmptyString => true
  | String a rest => Ascii.eqb a c && all_chars c rest
  end.

(** [(p[:i], p[i:])] for [i = p.rfind("/") + 1], when there is a
    slash. *)
Fixpoint cut_after_last_slash (p : string) : option (string * string) :=
  match p with
  | EmptyString => None
  | String c rest =>
      match cut_after_last_slash rest with
      | Some (head, tail) => Some (String c head, tail)
      | None =>
          if Ascii.eqb c "/" then Some (String c EmptyString, rest) else None
      end
  end.

(** [os.path.split(p)] of [posixpath]. *)
Definition os_path_split (p : string) : string * string :=
  let '(head, tail) := default (EmptyString, p) (cut_after_last_slash p) in
  let head :=
    if negb (String.eqb head EmptyString) && negb (all_chars "/" head)
    then str_rstrip "/" head
    else head in
  (head, tail).

End Py.

(** ** The external collaborators *)

(** What opening a packaged resource and parsing it as YAML comes to:
    the file is not there ([FileNotFoundError]), the read or the parse
    raises another exception, of any class, or the parser returns a
    value ([None] for an empty document). *)
Inductive read_outcome : Type :=
| FileNotFound
| ReadFailure (e : exn)
| Parsed (content : value).

(** The resources of the process: package path and file name to the
    outcome of [importlib.resources.files(package_path)
    .joinpath(file_name).open("r")] followed by [yaml.safe_load]. *)
Definition resources : Type := string → string → read_outcome.

(** ** utilities.py *)

Module Utilities.

(** [v.items] of a value known to be a dict. *)
Definition dict_items (v : value) : gmap string value :=
  match v with VDict items => items | _ => ∅ end.

(** [_merge_dicts(base, overlay)].  The loop over [overlay.items()]
    is a fold over the overlay that starts from [base.copy()].  The
    function recurs on a value of the overlay, so the recursion is
    written on the overlay as a [value]; [_merge_dicts] below is the
    function at its declared type. *)
Fixpoint merge_into (base : gmap string value) (overlay : value) {struct overlay}
  : gmap string value :=
  match overlay with
  | VDict overlay_items =>
      map_fold
        (λ overlay_key overlay_value merged,
           match merged !! overlay_key with
           | Some current =>
               if is_dict overlay_value && is_dict current
               then <[overlay_key :=
                        VDict (merge_into (dict_items current) overlay_value)]> merged
               else <[overlay_key := overlay_value]> merged
           | None => <[overlay_key := overlay_value]> merged
           end)
        base overlay_items
  | _ => base
  end.

Definition _merge_dicts (base overlay : gmap string value) : gmap string value :=
  merge_into base (VDict overlay).

(** [_split_package_file_path(file_path)]. *)
Definition _split_package_file_path (file_path : string) : string * string :=
  let '(full_path, file_name) := Py.os_path_split file_path in
  let package_path :=
    Py.str_replace "/" "." (Py.str_replace file_name "" full_path) in
  (package_path, file_name).

(** [_load_yaml(package_path, file_name)]: [FileNotFoundError] is
    caught and gives [{}]; every other exception is raised again, as
    it is. *)
Definition _load_yaml (res : resources) (package_path file_name : string)
  : result value :=
  match res package_path file_name with
  | Parsed content => ret content
  | FileNotFound => ret (VDict ∅)
  | ReadFailure e => raise e
  end.

(** The loop of [_load_configs], with [config_dicts] as accumulator. *)
Fixpoint load_loop (res : resources) (config_files : list string)
    (config_dicts : list value) : result (list value) :=
  match config_files with
  | [] => ret config_dicts
  | file_path :: remaining =>
      let '(package_path, file_name) := _split_package_file_path file_path in
      config_dict ←! _load_yaml res package_path file_name;
      if negb (is_None config_dict)
      then load_loop res remaining (config_dicts ++ [config_dict])
      else load_loop res remaining config_dicts
  end.

Definition _load_configs (res : resources) (config_files : list string)
  : result (list value) :=
  load_loop res config_files [].

(** [_merge_all_dicts(dicts)]: [reduce(_merge_dicts, dicts, {})]. *)
Definition _merge_all_dicts (dicts : list (gmap string value)) : gmap string value :=
  fold_left _merge_dicts dicts ∅.

(** The body of the loop of [_add_config_set_files]: the overlay path
    of one base path. *)
Definition new_file_path (config_file config_set : string) : string :=
  let file_parts := Py.str_split "." config_file in
  let file_extension := Py.last_part file_parts in
  let remainder_of_file_path := Py.init_parts file_parts in
  let all_path_parts := remainder_of_file_path ++ [config_set] ++ [file_extension] in
  Py.str_join "." all_path_parts.

(** [_add_config_set_files(config_files, config_set)]. *)
Definition _add_config_set_files (config_files : list string) (config_set : string)
  : list string :=
  let environment_config_files :=
    fold_left
      (λ environment_config_files config_file,
         environment_config_files ++ [new_file_path config_file config_set])
      config_files [] in
  config_files ++ environment_config_files.

End Utilities.

(** ** chimera_form.py *)

Module ChimeraForm.

(** The class [ChimeraForm]: its one class attribute is the state. *)
Record t : Type := { chimera_form : string }.

(** The class as the module defines it: [chimera_form: str = "local"]. *)
Definition initial : t := {| chimera_form := "local" |}.

(** [ChimeraForm.set_form(chimera_form)]. *)
Definition set_form (new_form : string) (cls : t) : t :=
  {| chimera_form := new_form |}.

End ChimeraForm.

(** ** Configuration classes *)

(** The [_config_files] attribute of a class: absent
    ([hasattr(cls, "_config_files")] is false), or the private
    attribute pydantic makes of it, read through [.default]. *)
Inductive declaration : Type :=
| Undeclared
| PrivateAttr (default : value).

(** A constructed configuration object: its validated fields. *)
Definition instance : Type := gmap string value.

(** A concrete configuration class.  [validate] is the call of [cls]
    on keyword arguments, the construct-and-validate step of
    pydantic, which either raises an exception, of any class, or
    builds the object. *)
Record pyclass : Type := {
  __name__ : string;
  _config_files : declaration;
  validate : gmap string value → exn + instance;
}.

(** The call of [cls] on the merged configuration as keyword
    arguments: what the constructor raises is raised as it is. *)
Definition construct (cls : pyclass) (kwargs : gmap string value) : result instance :=
  match validate cls kwargs with
  | inl e => raise e
  | inr obj => ret obj
  end.

(** [v] of a value known to be a list. *)
Definition list_items (v : value) : list value :=
  match v with VList items => items | _ => [] end.

(** The entries of a list on which [split] is called: an entry that is
    not a string has no such method. *)
Fixpoint expect_strs (entries : list value) : result (list string) :=
  match entries with
  | [] => ret []
  | VStr s :: remaining => strs ←! expect_strs remaining; ret (s :: strs)
  | _ :: _ => raise (AttributeError "object has no attribute 'split'")
  end.

(** The loaded documents on which [items] is called: a document that
    is not a mapping has no such method. *)
Fixpoint expect_dicts (documents : list value) : result (list (gmap string value)) :=
  match documents with
  | [] => ret []
  | VDict items :: remaining => dicts ←! expect_dicts remaining; ret (items :: dicts)
  | _ :: _ => raise (AttributeError "object has no attribute 'items'")
  end.

(** [except (AttributeError, NotImplementedError, ValueError)]. *)
Definition caught (e : exn) : bool :=
  match e with
  | AttributeError _ | NotImplementedError _ | ValueError _ => true
  | _ => false
  end.

(** The message of the [ValueError] raised when no usable file list is
    declared. *)
Definition config_files_required (cls : pyclass) (e : exn) : string :=
  "Config files must be provided via 'config_files_override' argument as '"
  +:+ __name__ cls
  +:+ "' does not define a valid default '_config_files'. Original error: "
  +:+ exn_str e.

(** ** chimera_conf.py *)

Module ChimeraConf.

(** [ChimeraConf.config_files()]. *)
Definition config_files (cls : pyclass) : result (list value) :=
  match _config_files cls with
  | Undeclared =>
      raise (NotImplementedError "You must define _config_files on your concrete class")
  | PrivateAttr config_files =>
      if negb (is_list config_files)
      then raise (ValueError "_config_files must be a list of strings, where each string is a import path to a config file.")
      else if Nat.eqb (length (list_items config_files)) 0
      then raise (ValueError "You must specify at least 1 file in _config_files")
      else ret (list_items config_files)
  end.

(** [ChimeraConf.manifest(chimera_form, config_files_override)], run
    with the registry [registry] and the resources [res]. *)
Definition manifest (registry : ChimeraForm.t) (res : resources) (cls : pyclass)
    (chimera_form : option string) (config_files_override : option (list string))
  : result instance :=
  let chimera_form :=
    match chimera_form with
    | None => ChimeraForm.chimera_form registry
    | Some form => form
    end in
  files_to_load ←!
    match config_files_override with
    | Some files => ret (VStr <$> files)
    | None =>
        match config_files cls with
        | inr files => ret files
        | inl e =>
            if caught e
            then raise (ValueError (config_files_required cls e))
            else raise e
        end
    end;
  paths ←! expect_strs files_to_load;
  let all_config_files := Utilities._add_config_set_files paths chimera_form in
  config_dicts ←! Utilities._load_configs res all_config_files;
  dicts ←! expect_dicts config_dicts;
  let merged_config := Utilities._merge_all_dicts dicts in
  construct cls merged_config.

End ChimeraConf.

(** ** config_builder.py *)

Module ConfigBuilder.

(** The class [ConfigSet]. *)
Record ConfigSet : Type := { config_set : string }.

Definition initial : ConfigSet := {| config_set := "local" |}.

(** [ConfigSet.set_config_set(config_set)]. *)
Definition set_config_set (new_set : string) (cls : ConfigSet) : ConfigSet :=
  {| config_set := new_set |}.

(** [merge_dicts(base, overlay)]. *)
Fixpoint merge_into (base : gmap string value) (overlay : value) {struct overlay}
  : gmap string value :=
  match overlay with
  | VDict overlay_items =>
      map_fold
        (λ overlay_key overlay_value merged,
           match merged !! overlay_key with
           | Some current =>
               if is_dict overlay_value && is_dict current
               then <[overlay_key :=
                        VDict (merge_into (Utilities.dict_items current) overlay_value)]> merged
               else <[overlay_key := overlay_value]> merged
           | None => <[overlay_key := overlay_value]> merged
           end)
        base overlay_items
  | _ => base
  end.

Definition merge_dicts (base overlay : gmap string value) : gmap string value :=
  merge_into base (VDict overlay).

(** [split_package_file_path(file_path)]. *)
Definition split_package_file_path (file_path : string) : string * string :=
  let '(full_path, file_name) := Py.os_path_split file_path in
  let package_path :=
    Py.str_replace "/" "." (Py.str_replace file_name "" full_path) in
  (package_path, file_name).

(** [load_yaml(package_path, file_name)]. *)
Definition load_yaml (res : resources) (package_path file_name : string)
  : result value :=
  match res package_path file_name with
  | Parsed content => ret content
  | FileNotFound => ret (VDict ∅)
  | ReadFailure e => raise e
  end.

(** The exceptions of [update_config_tactics]: the [KeyError] of a
    subscript on a missing key, besides those of the package. *)
Inductive lookup_exn : Type :=
| KeyError (key : string)
| Raised (e : exn).

(** The inner loop of [update_config_tactics]: every item of
    [tactic_default] whose key [dict_profile] lacks is set in it.
    [dict_profile.keys()] is asked once per item, so a profile that is
    no mapping fails only when there is an item. *)
Definition fill_profile (tactic_default : gmap string value) (dict_profile : value)
  : lookup_exn + value :=
  map_fold
    (λ k v (state : lookup_exn + value),
       match state with
       | inl e => inl e
       | inr (VDict profile_items) =>
           if decide (is_Some (profile_items !! k))
           then inr (VDict profile_items)
           else inr (VDict (<[k := v]> profile_items))
       | inr _ => inl (Raised (AttributeError "object has no attribute 'keys'"))
       end)
    (inr dict_profile) tactic_default.

(** One round of the outer loop of [update_config_tactics]: the
    profile of [variant] is filled from [config_dict["tactic_default"]]
    and stored back. *)
Definition fill_variant (config_dict : gmap string value)
    (variant : string) (dict_profile : value)
    (state : lookup_exn + gmap string value) : lookup_exn + gmap string value :=
  match state with
  | inl e => inl e
  | inr filled =>
      match config_dict !! "tactic_default" with
      | None => inl (KeyError "tactic_default")
      | Some (VDict tactic_default) =>
          match fill_profile tactic_default dict_profile with
          | inl e => inl e
          | inr profile => inr (<[variant := profile]> filled)
          end
      | Some _ => inl (Raised (AttributeError "object has no attribute 'items'"))
      end
  end.

(** [update_config_tactics(config_dict)], as the mapping it returns.
    The function fills the profiles in place; the model is for a
    [config_dict] in which profiles and defaults are separate objects,
    as a YAML document without aliases loads. *)
Definition update_config_tactics (config_dict : gmap string value)
  : lookup_exn + gmap string value :=
  match config_dict !! "tactic_variant" with
  | None => inl (KeyError "tactic_variant")
  | Some tactic_variant =>
      if is_None tactic_variant then inr config_dict
      else
        match tactic_variant with
        | VDict variants =>
            if bool_decide (0 < size variants)
            then
              match map_fold (fill_variant config_dict) (inr variants) variants with
              | inl e => inl e
              | inr filled => inr (<["tactic_variant" := VDict filled]> config_dict)
              end
            else inr config_dict
        | _ => inl (Raised (AttributeError "object has no attribute 'keys'"))
        end
  end.

(** The loop of [load_configs]. *)
Fixpoint load_loop (res : resources) (config_files : list string)
    (config_dicts : list value) : result (list value) :=
  match config_files with
  | [] => ret config_dicts
  | file_path :: remaining =>
      let '(package_path, file_name) := split_package_file_path file_path in
      config_dict ←! load_yaml res package_path file_name;
      if negb (is_None config_dict)
      then load_loop res remaining (config_dicts ++ [config_dict])
      else load_loop res remaining config_dicts
  end.

Definition load_configs (res : resources) (config_files : list string)
  : result (list value) :=
  load_loop res config_files [].

(** [merge_all_dicts(dicts)]. *)
Definition merge_all_dicts (dicts : list (gmap string value)) : gmap string value :=
  fold_left merge_dicts dicts ∅.

(** The body of the loop of [add_config_set_files]. *)
Definition new_file_path (config_file config_set : string) : string :=
  let file_parts := Py.str_split "." config_file in
  let file_extension := Py.last_part file_parts in
  let remainder_of_file_path := Py.init_parts file_parts in
  let all_path_parts := remainder_of_file_path ++ [config_set] ++ [file_extension] in
  Py.str_join "." all_path_parts.

(** [add_config_set_files(config_files, config_set)]. *)
Definition add_config_set_files (config_files : list string) (config_set : string)
  : list string :=
  let environment_config_files :=
    fold_left
      (λ environment_config_files config_file,
         environment_config_files ++ [new_file_path config_file config_set])
      config_files [] in
  config_files ++ environment_config_files.

(** [ConfigBuilder.config_files()]. *)
Definition config_files (cls : pyclass) : result (list value) :=
  match _config_files cls with
  | Undeclared =>
      raise (NotImplementedError "You must define _config_files on your concrete class")
  | PrivateAttr config_files =>
      if negb (is_list config_files)
      then raise (ValueError "_config_files must be a list of strings, where each string is a import path to a config file.")
      else if Nat.eqb (length (list_items config_files)) 0
      then raise (ValueError "You must specify at least 1 file in _config_files")
      else ret (list_items config_files)
  end.

(** [ConfigBuilder.load_config(config_set, config_files_override)]. *)
Definition load_config (registry : ConfigSet) (res : resources) (cls : pyclass)
    (config_set_arg : option string) (config_files_override : option (list string))
  : result instance :=
  let config_set :=
    match config_set_arg with
    | None => config_set registry
    | Some name => name
    end in
  files_to_load ←!
    match config_files_override with
    | Some files => ret (VStr <$> files)
    | None =>
        match config_files cls with
        | inr files => ret files
        | inl e =>
            if caught e
            then raise (ValueError (config_files_required cls e))
            else raise e
        end
    end;
  paths ←! expect_strs files_to_load;
  let all_config_files := add_config_set_files paths config_set in
  config_dicts ←! load_configs res all_config_files;
  dicts ←! expect_dicts config_dicts;
  let merged_config := merge_all_dicts dicts in
  construct cls merged_config.

End ConfigBuilder.

(** ** Dictionaries as objects in a store *)

(** Python dictionaries and lists are mutable objects reached through
    references, and [base.copy()] is a shallow copy: the copy shares
    every nested object with [base].  This part runs [_merge_dicts] on
    a store of objects, so that what the call writes can be told from
    what it leaves alone. *)

Module Store.

Abbreviation loc := positive (only parsing).

(** A value as a variable or a container slot holds it: a scalar, or
    a reference to an object. *)
Inductive ref_value : Type :=
| RNone
| RBool (b : bool)
| RInt (z : Z)
| RStr (s : string)
| RRef (l : loc).

Inductive object : Type :=
| ODict (items : gmap string ref_value)
| OList (items : list ref_value).

Abbreviation store := (gmap positive object) (only parsing).

(** A new object at an address that is not in use. *)
Definition alloc (σ : store) (o : object) : store * loc :=
  let l := fresh (dom σ) in (<[l := o]> σ, l).

(** The items of the dictionary at [l]; [None] when [l] holds no
    dictionary. *)
Definition read_dict (σ : store) (l : loc) : option (gmap string ref_value) :=
  match σ !! l with
  | Some (ODict items) => Some items
  | _ => None
  end.

(** [isinstance(v, dict)]. *)
Definition is_dict (σ : store) (v : ref_value) : bool :=
  match v with
  | RRef l => bool_decide (is_Some (read_dict σ l))
  | _ => false
  end.

Definition loc_of (v : ref_value) : loc :=
  match v with RRef l => l | _ => 1%positive end.

(** [d[key] = v] on the dictionary at [l]: the one write of the
    program. *)
Definition setitem (σ : store) (l : loc) (key : string) (v : ref_value)
  : option store :=
  items ← read_dict σ l;
  Some (<[l := ODict (<[key := v]> items)]> σ).

(** [_merge_dicts(base, overlay)] on references.  [None] is a run that
    does not return a dictionary: an argument that is no dictionary,
    or more nested calls than [fuel] (Python's recursion limit; a
    cyclic overlay recurs for ever). *)
Fixpoint _merge_dicts (fuel : nat) (σ : store) (base overlay : loc)
  : option (store * loc) :=
  match fuel with
  | O => None
  | S fuel =>
      base_items ← read_dict σ base;
      overlay_items ← read_dict σ overlay;
      let '(σ, merged) := alloc σ (ODict base_items) in
      σ ← map_fold
            (λ overlay_key overlay_value (state : option store),
               σ ← state;
               merged_items ← read_dict σ merged;
               match merged_items !! overlay_key with
               | Some current =>
                   if is_dict σ overlay_value && is_dict σ current
                   then
                     '(σ, nested) ← _merge_dicts fuel σ (loc_of current)
                                       (loc_of overlay_value);
                     setitem σ merged overlay_key (RRef nested)
                   else setitem σ merged overlay_key overlay_value
               | None => setitem σ merged overlay_key overlay_value
               end)
            (Some σ) overlay_items;
      Some (σ, merged)
  end.

(** The structure below a value, read off the store down to [depth]
    nested containers: the value as a tree, when every item below it
    has one. *)
Fixpoint reify (depth : nat) (σ : store) (v : ref_value) : option value :=
  match v with
  | RNone => Some VNone
  | RBool b => Some (VBool b)
  | RInt z => Some (VInt z)
  | RStr s => Some (VStr s)
  | RRef l =>
      match depth with
      | O => None
      | S depth =>
          match σ !! l with
          | Some (ODict items) =>
              if decide (map_Forall (λ _ item, is_Some (reify depth σ item)) items)
              then Some (VDict (omap (reify depth σ) items))
              else None
          | Some (OList items) =>
              elements ← mapM (reify depth σ) items;
              Some (VList elements)
          | None => None
          end
      end
  end.

End Store.

(** ** Vocabulary of the statements *)

(** What one entry of the merge is, from the two entries it comes
    from. *)
Definition merge_entry (recur : gmap string value → gmap string value → gmap string value)
    (base_entry overlay_entry : option value) : option value :=
  match overlay_entry with
  | None => base_entry
  | Some overlay_value =>
      match base_entry, overlay_value with
      | Some (VDict base_items), VDict overlay_items =>
          Some (VDict (recur base_items overlay_items))
      | _, _ => Some overlay_value
      end
  end.

(** The value found by following a path of keys below a mapping:
    [d[k1][k2]...[kn]]. *)
Fixpoint lookup_path (path : list string) (d : gmap string value) : option value :=
  match path with
  | [] => None
  | key :: rest =>
      match rest with
      | [] => d !! key
      | _ =>
          match d !! key with
          | Some (VDict nested) => lookup_path rest nested
          | _ => None
          end
      end
  end.

(** A mapping assigns on a path when it holds a value at the path, or
    a value that is not a mapping somewhere above it: merged in as an
    overlay, it then replaces what the base holds at the path. *)
Fixpoint assigns (path : list string) (d : gmap string value) : bool :=
  match path with
  | [] => false
  | key :: rest =>
      match d !! key with
      | None => false
      | Some (VDict nested) =>
          match rest with
          | [] => true
          | _ => assigns rest nested
          end
      | Some _ => true
      end
  end.

(** A string without the separator [sep]. *)
Fixpoint sep_free (sep : ascii) (s : string) : bool :=
  match s with
  | EmptyString => true
  | String c rest => negb (Ascii.eqb c sep) && sep_free sep rest
  end.

(** What the resources answer for a path, once the loader has split
    it into package and file name. *)
Definition outcome (res : resources) (file_path : string) : read_outcome :=
  let '(package_path, file_name) := Utilities._split_package_file_path file_path in
  res package_path file_name.

(** What a path adds to the list of loaded documents: the empty
    mapping for a file that is not there, the parsed content of a file
    that is, and nothing when that content is [None]. *)
Definition entry (res : resources) (file_path : string) : list value :=
  match outcome res file_path with
  | FileNotFound => [VDict ∅]
  | Parsed content => if is_None content then [] else [content]
  | ReadFailure _ => []
  end.

Definition readable (res : resources) (file_path : string) : Prop :=
  ∀ e, outcome res file_path ≠ ReadFailure e.

Definition parses_to_None (res : resources) (file_path : string) : bool :=
  match outcome res file_path with
  | Parsed content => is_None content
  | _ => false
  end.

(** A package [conf] with a base file, its overlay for the variant
    [prod], an empty file and a broken file; nothing else exists. *)
Definition demo_resources : resources :=
  λ package_path file_name,
    if String.eqb package_path "conf" then
      if String.eqb file_name "base.yml"
      then Parsed (VDict {[ "x" := VInt 1 ]})
      else if String.eqb file_name "base.prod.yml"
      then Parsed (VDict {[ "x" := VInt 2 ]})
      else if String.eqb file_name "empty.yml" then Parsed VNone
      else if String.eqb file_name "broken.yml"
      then ReadFailure (SourceLoadFailure "could not parse")
      else FileNotFound
    else FileNotFound.

(** The same class with another [_config_files] attribute. *)
Definition with_declaration (cls : pyclass) (d : declaration) : pyclass :=
  {| __name__ := __name__ cls; _config_files := d; validate := validate cls |}.

(** A list whose entries are all strings. *)
Definition is_str_list (v : value) : bool :=
  match v with
  | VList entries => forallb is_str entries
  | _ => false
  end.

(** The steps of a resolution once the variant and the base paths are
    known: derive the overlay paths, load, merge, construct. *)
Definition resolve_paths (res : resources) (cls : pyclass) (variant : string)
    (base_paths : list string) : result instance :=
  config_dicts ←! Utilities._load_configs res
                    (Utilities._add_config_set_files base_paths variant);
  dicts ←! expect_dicts config_dicts;
  construct cls (Utilities._merge_all_dicts dicts).

(** The three failures of the declaration, as the code raises them. *)
Definition DeclarationMissing : exn :=
  NotImplementedError "You must define _config_files on your concrete class".

Definition DeclarationInvalid : exn :=
  ValueError "_config_files must be a list of strings, where each string is a import path to a config file.".

Definition DeclarationEmpty : exn :=
  ValueError "You must specify at least 1 file in _config_files".

(** A class that accepts every mapping as it is. *)
Definition permissive (name : string) (d : declaration) : pyclass :=
  {| __name__ := name; _config_files := d; validate := inr |}.

(** One round of the loop of [Store._merge_dicts]: the item
    [(overlay_key, overlay_value)] of the overlay goes into the
    dictionary at [merged]. *)
Definition merge_item (fuel : nat) (merged : Store.loc)
    (overlay_key : string) (overlay_value : Store.ref_value)
    (state : option Store.store) : option Store.store :=
  σ ← state;
  merged_items ← Store.read_dict σ merged;
  match merged_items !! overlay_key with
  | Some current =>
      if Store.is_dict σ overlay_value && Store.is_dict σ current
      then
        '(σ, nested) ← Store._merge_dicts fuel σ (Store.loc_of current)
                          (Store.loc_of overlay_value);
        Store.setitem σ merged overlay_key (Store.RRef nested)
      else Store.setitem σ merged overlay_key overlay_value
  | None => Store.setitem σ merged overlay_key overlay_value
  end.

(** A store with a base dictionary at address 1, its nested
    dictionary at 2, an overlay at 3 and its nested dictionary at 4. *)
Definition demo_store : Store.store :=
  {[ 1%positive := Store.ODict {[ "timeout" := Store.RInt 10; "nested" := Store.RRef 2%positive ]};
     2%positive := Store.ODict {[ "a" := Store.RInt 1; "b" := Store.RInt 2 ]};
     3%positive := Store.ODict {[ "nested" := Store.RRef 4%positive ]};
     4%positive := Store.ODict {[ "b" := Store.RInt 99 ]} ]}.

(** A slot of a dictionary in the store reads as an entry of a
    mapping: both are missing, or the slot's value has the entry's
    tree. *)
Definition entry_reads (depth : nat) (σ : Store.store)
    (slot : option Store.ref_value) (entry : option value) : Prop :=
  match slot with
  | Some v => is_Some entry ∧ Store.reify depth σ v = entry
  | None => entry = None
  end.

(** What holds of the store between two rounds of the loop, seen from
    a part [σr] of the store that does not hold the dictionary under
    construction: the objects of the store [σ0] the call started from
    are kept, [σr] has changed on none of them, and the slots of the
    dictionary at [merged] read in [σr] as the merge of the base [tb]
    with the part [to] of the overlay. *)
Definition loop_invariant (depth : nat) (σ0 σr0 : Store.store) (merged : Store.loc)
    (tb : gmap string value) (σ σr : Store.store)
    (items : gmap string Store.ref_value) (to : gmap string value) : Prop :=
  σ0 ⊆ σ
  ∧ σr ⊆ σ
  ∧ σr !! merged = None
  ∧ (∀ l, is_Some (σ0 !! l) → σr !! l = σr0 !! l)
  ∧ Store.read_dict σ merged = Some items
  ∧ ∀ key, entry_reads depth σr (items !! key)
             (merge_entry Utilities._merge_dicts (tb !! key) (to !! key)).

(** What a call gives to a reader who sees the part [σr] of the store:
    a part of the new store that has changed on no old address and in
    which the result reads as the merge of the two trees. *)
Definition refines_at (fuel depth : nat) : Prop :=
  ∀ (σ : Store.store) (b o : Store.loc) (σ' : Store.store) (r : Store.loc),
    Store._merge_dicts fuel σ b o = Some (σ', r) →
    ∀ (σr : Store.store) (tb to : gmap string value),
      σr ⊆ σ →
      Store.reify depth σr (Store.RRef b) = Some (VDict tb) →
      Store.reify depth σr (Store.RRef o) = Some (VDict to) →
      ∃ σr' : Store.store,
        σr' ⊆ σ'
        ∧ (∀ l, is_Some (σ !! l) → σr' !! l = σr !! l)
        ∧ Store.reify depth σr' (Store.RRef r)
          = Some (VDict (Utilities._merge_dicts tb to)).

(** How deep mappings are nested in a value. *)
Fixpoint value_depth (v : value) : nat :=
  match v with
  | VDict items =>
      S (map_fold (λ _ item deepest, value_depth item `max` deepest) 0 items)
  | _ => 0
  end.

(** A mapping none of whose values is a mapping. *)
Definition flat (d : gmap string value) : Prop :=
  ∀ key v, d !! key = Some v → is_dict v = false.

(** The resources in which every file that is missing or parses to
    [None] holds an empty mapping instead. *)
Definition canon (res : resources) : resources :=
  λ package_path file_name,
    match res package_path file_name with
    | FileNotFound | Parsed VNone => Parsed (VDict ∅)
    | other => other
    end.

(** A path that loads as a mapping: the file is missing, empty, or
    parses to a mapping. *)
Definition loads_mapping (res : resources) (file_path : string) : Prop :=
  match outcome res file_path with
  | FileNotFound | Parsed VNone | Parsed (VDict _) => True
  | _ => False
  end.

(** The mapping a path stands for in the merge. *)
Definition layer (res : resources) (file_path : string) : gmap string value :=
  match outcome res file_path with
  | Parsed (VDict items) => items
  | _ => ∅
  end.

(** What the orchestrator does with the loaded documents: merge them,
    when they are all mappings. *)
Definition settle (documents : list value) : result (gmap string value) :=
  dicts ←! expect_dicts documents;
  ret (Utilities._merge_all_dicts dicts).

(** A profile with the defaults it lacks: its own entries win. *)
Definition with_defaults (tactic_default : gmap string value) (profile : value) : value :=
  match profile with
  | VDict items => VDict (items ∪ tactic_default)
  | _ => profile
  end.

(** A profile the inner loop of [update_config_tactics] runs through:
    a mapping, or anything when there is no default to fill in. *)
Definition fillable (tactic_default : gmap string value) (profile : value) : Prop :=
  tactic_default = ∅ ∨ is_dict profile = true.

(** A package [conf] whose file [list.yml] holds a sequence at the
    top level. *)
Definition list_resources : resources :=
  λ package_path file_name,
    if String.eqb package_path "conf" && String.eqb file_name "list.yml"
    then Parsed (VList [VStr "a"; VStr "b"])
    else FileNotFound.

(** A reader as [importlib] behaves on a path without a directory:
    the package path is empty and the lookup raises a [ValueError]. *)
Definition strict_resources : resources :=
  λ package_path file_name,
    if String.eqb package_path ""
    then ReadFailure (ValueError "Empty module name")
    else demo_resources package_path file_name.

(** * Properties *)

(** ** The merge *)

Section merge.
Implicit Types (base overlay merged : gmap string value) (key : string).

Lemma merge_dicts_unfold base overlay :
  Utilities._merge_dicts base overlay =
  map_fold
    (λ overlay_key overlay_value merged,
       match merged !! overlay_key with
       | Some current =>
           if is_dict overlay_value && is_dict current
           then <[overlay_key :=
                    VDict (Utilities.merge_into (Utilities.dict_items current) overlay_value)]> merged
           else <[overlay_key := overlay_value]> merged
       | None => <[overlay_key := overlay_value]> merged
       end)
    base overlay.
Proof. reflexivity. Qed.

Lemma merge_dicts_lookup base overlay key :
  Utilities._merge_dicts base overlay !! key
  = merge_entry Utilities._merge_dicts (base !! key) (overlay !! key).
Proof.
  rewrite merge_dicts_unfold. revert key.
  induction overlay as [|k v overlay Hfresh Hfirst IH] using map_first_key_ind;
    intros key.
  - by rewrite map_fold_empty, lookup_empty.
  - rewrite (map_fold_insert_first_key _ _ _ _ _ Hfresh Hfirst).
    set (acc := map_fold _ base overlay) in *.
    assert (Hacc : acc !! k = base !! k).
    { rewrite IH, Hfresh. done. }
    destruct (decide (k = key)) as [<-|Hne].
    + rewrite lookup_insert_eq, Hacc. unfold merge_entry.
      destruct (base !! k) as [[]|], v; simpl; by rewrite ?lookup_insert_eq.
    + rewrite (lookup_insert_ne _ k key) by done. rewrite <- IH.
      destruct (acc !! k) as [current|]; [|by rewrite lookup_insert_ne].
      destruct (is_dict v && is_dict current); by rewrite lookup_insert_ne.
Qed.

(** C1. The keys of [_merge_dicts a b] are the keys of [a] and of [b];
    a key of [a] alone keeps the value of [a], a key of [b] alone gets
    the value of [b], a key of both gets the merge of the two values
    when both are mappings and the value of [b] in every other case. *)
Theorem merge_dicts_spec (a b : gmap string value) :
  dom (Utilities._merge_dicts a b) = dom a ∪ dom b
  ∧ (∀ key v, a !! key = Some v → b !! key = None →
       Utilities._merge_dicts a b !! key = Some v)
  ∧ (∀ key v, a !! key = None → b !! key = Some v →
       Utilities._merge_dicts a b !! key = Some v)
  ∧ (∀ key x y, a !! key = Some (VDict x) → b !! key = Some (VDict y) →
       Utilities._merge_dicts a b !! key = Some (VDict (Utilities._merge_dicts x y)))
  ∧ (∀ key va vb, a !! key = Some va → b !! key = Some vb →
       is_dict va && is_dict vb = false →
       Utilities._merge_dicts a b !! key = Some vb).
Proof.
  split_and!.
  - apply set_eq; intros key.
    rewrite elem_of_union, !elem_of_dom, merge_dicts_lookup.
    unfold merge_entry.
    destruct (a !! key) as [[]|], (b !! key) as [[]|]; simpl;
      split; intros; eauto; try (destruct_or?; done).
  - intros key v Ha Hb. by rewrite merge_dicts_lookup, Ha, Hb.
  - intros key v Ha Hb. by rewrite merge_dicts_lookup, Ha, Hb.
  - intros key x y Ha Hb. by rewrite merge_dicts_lookup, Ha, Hb.
  - intros key va vb Ha Hb Hnot. rewrite merge_dicts_lookup, Ha, Hb.
    by destruct va, vb.
Qed.

(** The identity laws of the merge. *)
Lemma merge_dicts_empty_r a : Utilities._merge_dicts a ∅ = a.
Proof. apply map_eq; intros key. by rewrite merge_dicts_lookup, lookup_empty. Qed.

Lemma merge_dicts_empty_l b : Utilities._merge_dicts ∅ b = b.
Proof.
  apply map_eq; intros key. rewrite merge_dicts_lookup, lookup_empty.
  unfold merge_entry. by destruct (b !! key) as [[]|].
Qed.

(** ** Laws of the merge *)

(** X1. The merge with an empty mapping, on either side, changes
    nothing. *)
Theorem merge_dicts_identity (a : gmap string value) :
  Utilities._merge_dicts a ∅ = a ∧ Utilities._merge_dicts ∅ a = a.
Proof. split; [apply merge_dicts_empty_r | apply merge_dicts_empty_l]. Qed.

Lemma value_depth_item (items : gmap string value) key item :
  items !! key = Some item → value_depth item < value_depth (VDict items).
Proof.
  simpl. induction items as [|k v items Hfresh Hfirst IH] using map_first_key_ind.
  - by rewrite lookup_empty.
  - rewrite (map_fold_insert_first_key _ _ _ _ _ Hfresh Hfirst).
    destruct (decide (k = key)) as [<-|Hne].
    + rewrite lookup_insert_eq. intros [= <-]. lia.
    + rewrite lookup_insert_ne by done. intros Hitem%IH. lia.
Qed.

Lemma merge_dicts_again_bounded n : ∀ a b,
  value_depth (VDict b) ≤ n →
  Utilities._merge_dicts (Utilities._merge_dicts a b) b = Utilities._merge_dicts a b.
Proof.
  induction n as [|n IH]; intros a b Hdepth; [simpl in Hdepth; lia|].
  apply map_eq. intros key. rewrite (merge_dicts_lookup (Utilities._merge_dicts a b)).
  rewrite merge_dicts_lookup. unfold merge_entry.
  destruct (b !! key) as [vb|] eqn:Hb; [|done].
  assert (Hsmaller : ∀ y, vb = VDict y → value_depth (VDict y) ≤ n).
  { intros y ->. apply value_depth_item in Hb. lia. }
  destruct (a !! key) as [[| | | | |x]|], vb as [| | | | |y]; try done.
  - do 2 f_equal. rewrite <- (merge_dicts_empty_l y) at 1 3. by apply IH, Hsmaller.
  - do 2 f_equal. rewrite <- (merge_dicts_empty_l y) at 1 3. by apply IH, Hsmaller.
  - do 2 f_equal. rewrite <- (merge_dicts_empty_l y) at 1 3. by apply IH, Hsmaller.
  - do 2 f_equal. rewrite <- (merge_dicts_empty_l y) at 1 3. by apply IH, Hsmaller.
  - do 2 f_equal. rewrite <- (merge_dicts_empty_l y) at 1 3. by apply IH, Hsmaller.
  - do 2 f_equal. by apply IH, Hsmaller.
  - do 2 f_equal. rewrite <- (merge_dicts_empty_l y) at 1 3. by apply IH, Hsmaller.
Qed.

(** X2. Merging the same overlay in a second time changes nothing; in
    particular a mapping merged with itself is itself. *)
Theorem merge_dicts_again (a b : gmap string value) :
  Utilities._merge_dicts (Utilities._merge_dicts a b) b = Utilities._merge_dicts a b
  ∧ Utilities._merge_dicts b b = b.
Proof.
  split.
  - by apply (merge_dicts_again_bounded (value_depth (VDict b))).
  - rewrite <- (merge_dicts_empty_l b) at 1 3.
    by apply (merge_dicts_again_bounded (value_depth (VDict b))).
Qed.

(** X3. When no value of the overlay is a mapping, the merge is the union
    of the two mappings in which the overlay wins. *)
Theorem merge_dicts_flat_union (a b : gmap string value) :
  flat b → Utilities._merge_dicts a b = b ∪ a.
Proof.
  intros Hflat. apply map_eq. intros key.
  rewrite merge_dicts_lookup, lookup_union. unfold merge_entry.
  destruct (b !! key) as [vb|] eqn:Hb.
  - apply Hflat in Hb. destruct (a !! key) as [[]|], vb; done.
  - by destruct (a !! key).
Qed.

Lemma merge_dicts_flat_union_witness :
  Utilities._merge_dicts
    {[ "host" := VStr "localhost"; "port" := VInt 80;
       "tls" := VDict {[ "on" := VBool false ]} ]}
    {[ "port" := VInt 443; "tls" := VBool true ]}
  = {[ "port" := VInt 443; "tls" := VBool true ]}
    ∪ {[ "host" := VStr "localhost"; "port" := VInt 80;
         "tls" := VDict {[ "on" := VBool false ]} ]}.
Proof.
  apply merge_dicts_flat_union.
  intros key v. rewrite lookup_insert_Some, lookup_singleton_Some.
  intros [[_ <-]|[_ [_ <-]]]; reflexivity.
Defined.

(** ** Precedence in the fold *)

(** A field the overlay sets to a value that is not a mapping has that
    value in the merge, whatever the base holds. *)
Lemma merge_dicts_overrides path : ∀ base overlay v,
  lookup_path path overlay = Some v →
  is_dict v = false →
  lookup_path path (Utilities._merge_dicts base overlay) = Some v.
Proof.
  induction path as [|key rest IH]; intros base overlay v Hv Hleaf; [done|].
  destruct rest as [|key' rest].
  - simpl in *. rewrite merge_dicts_lookup, Hv. unfold merge_entry.
    by destruct (base !! key) as [[]|], v.
  - cbn [lookup_path] in Hv |- *.
    destruct (overlay !! key) as [[| | | | |nested]|] eqn:Hkey; try done.
    rewrite merge_dicts_lookup, Hkey. unfold merge_entry.
    destruct (base !! key) as [[]|]; try done.
    by apply IH.
Qed.

(** A field of the base on which the overlay does not assign is kept,
    with its siblings. *)
Lemma merge_dicts_preserves path : ∀ base overlay v,
  lookup_path path base = Some v →
  assigns path overlay = false →
  lookup_path path (Utilities._merge_dicts base overlay) = Some v.
Proof.
  induction path as [|key rest IH]; intros base overlay v Hv Hfree; [done|].
  destruct rest as [|key' rest].
  - simpl in *. rewrite merge_dicts_lookup.
    destruct (overlay !! key) as [[]|]; done.
  - cbn [lookup_path assigns] in Hv, Hfree |- *.
    rewrite merge_dicts_lookup.
    destruct (base !! key) as [[| | | | |nested]|] eqn:Hkey; try done.
    destruct (overlay !! key) as [[]|]; try done.
    simpl. by apply IH.
Qed.

Lemma merge_all_dicts_app dicts later :
  Utilities._merge_all_dicts (dicts ++ later)
  = fold_left Utilities._merge_dicts later (Utilities._merge_all_dicts dicts).
Proof. unfold Utilities._merge_all_dicts. by rewrite fold_left_app. Qed.

Lemma fold_merge_preserves path later : ∀ base v,
  lookup_path path base = Some v →
  Forall (λ m, assigns path m = false) later →
  lookup_path path (fold_left Utilities._merge_dicts later base) = Some v.
Proof.
  induction later as [|m later IH]; intros base v Hv Hfree; [done|].
  inversion_clear Hfree. simpl. apply IH; [|done].
  by apply merge_dicts_preserves.
Qed.

(** Each key of the fold is the fold of that key's entries: the keys
    do not interfere, at any depth. *)
Lemma fold_merge_lookup dicts : ∀ base key,
  fold_left Utilities._merge_dicts dicts base !! key
  = fold_left (λ found m, merge_entry Utilities._merge_dicts found (m !! key))
      dicts (base !! key).
Proof.
  induction dicts as [|m dicts IH]; intros base key; [done|].
  simpl. by rewrite IH, merge_dicts_lookup.
Qed.

Lemma merge_all_dicts_lookup dicts key :
  Utilities._merge_all_dicts dicts !! key
  = fold_left (λ found m, merge_entry Utilities._merge_dicts found (m !! key))
      dicts None.
Proof.
  unfold Utilities._merge_all_dicts. by rewrite fold_merge_lookup, lookup_empty.
Qed.

(** X4. An empty mapping anywhere in the list (what a missing file
    loads as) does not change the fold; a single mapping folds to
    itself; one more mapping at the end is one more merge. *)
Theorem merge_all_dicts_layers (before after : list (gmap string value))
    (m : gmap string value) :
  Utilities._merge_all_dicts (before ++ ∅ :: after)
  = Utilities._merge_all_dicts (before ++ after)
  ∧ Utilities._merge_all_dicts [m] = m
  ∧ Utilities._merge_all_dicts (before ++ [m])
    = Utilities._merge_dicts (Utilities._merge_all_dicts before) m.
Proof.
  split_and!.
  - rewrite !merge_all_dicts_app. simpl. by rewrite merge_dicts_empty_r.
  - unfold Utilities._merge_all_dicts. simpl. apply merge_dicts_empty_l.
  - by rewrite merge_all_dicts_app.
Qed.

(** C5. In the left-to-right fold of a list of mappings, the value a
    mapping gives to a field, at any depth, is the field's value in
    the result whatever the earlier mappings hold for it, as long as
    no later mapping assigns on that field. *)
Theorem merge_all_dicts_precedence
    (earlier : list (gmap string value)) (m : gmap string value)
    (later : list (gmap string value)) (path : list string) (v : value) :
  lookup_path path m = Some v →
  is_dict v = false →
  Forall (λ m', assigns path m' = false) later →
  lookup_path path (Utilities._merge_all_dicts (earlier ++ m :: later)) = Some v.
Proof.
  intros Hv Hleaf Hfree.
  rewrite merge_all_dicts_app. simpl.
  apply fold_merge_preserves; [|done].
  by apply merge_dicts_overrides.
Qed.

Lemma merge_all_dicts_precedence_witness :
  lookup_path ["nested"; "b"]
    (Utilities._merge_all_dicts
       ([ {[ "timeout" := VInt 10;
             "nested" := VDict {[ "a" := VInt 1; "b" := VInt 2 ]} ]};
          {[ "nested" := VDict {[ "b" := VList [VInt 7; VInt 8] ]} ]} ]
        ++ {[ "nested" := VDict {[ "b" := VInt 99 ]} ]}
        :: [ {[ "nested" := VDict {[ "a" := VInt 5 ]}; "extra" := VBool true ]} ]))
  = Some (VInt 99).
Proof.
  apply merge_all_dicts_precedence.
  - vm_compute. reflexivity.
  - reflexivity.
  - repeat constructor.
Defined.

End merge.

(** ** Overlay paths *)

Section paths.
Implicit Types (sep : ascii) (s stem ext : string) (parts : list string).

Lemma string_app_nil_l s : EmptyString +:+ s = s.
Proof. reflexivity. Qed.

Lemma string_app_cons (c : ascii) s1 s2 : String c s1 +:+ s2 = String c (s1 +:+ s2).
Proof. reflexivity. Qed.

Lemma string_app_assoc (s1 s2 s3 : string) : (s1 +:+ s2) +:+ s3 = s1 +:+ (s2 +:+ s3).
Proof.
  induction s1 as [|c s1 IH]; [done|].
  by rewrite !string_app_cons, IH.
Qed.

Lemma str_split_nonempty sep s : Py.str_split sep s ≠ [].
Proof.
  destruct s as [|c rest]; simpl; [done|].
  destruct (Ascii.eqb c sep); [done|].
  by destruct (Py.str_split sep rest).
Qed.

Lemma str_split_sep_free sep s :
  sep_free sep s = true → Py.str_split sep s = [s].
Proof.
  induction s as [|c rest IH]; simpl; [done|].
  intros [Hc Hrest]%andb_prop. apply negb_true_iff in Hc.
  by rewrite Hc, IH.
Qed.

Lemma str_split_snoc sep stem ext :
  sep_free sep ext = true →
  Py.str_split sep (stem +:+ String sep ext) = Py.str_split sep stem ++ [ext].
Proof.
  intros Hext. induction stem as [|c rest IH].
  - rewrite string_app_nil_l. simpl.
    by rewrite Ascii.eqb_refl, str_split_sep_free.
  - rewrite string_app_cons. simpl.
    rewrite IH. destruct (Ascii.eqb c sep); [done|].
    pose proof (str_split_nonempty sep rest).
    by destruct (Py.str_split sep rest).
Qed.

Lemma str_join_cons sep s parts :
  parts ≠ [] →
  Py.str_join (String sep EmptyString) (s :: parts)
  = s +:+ String sep (Py.str_join (String sep EmptyString) parts).
Proof. by destruct parts. Qed.

Lemma str_join_app sep parts more :
  parts ≠ [] → more ≠ [] →
  Py.str_join (String sep EmptyString) (parts ++ more)
  = Py.str_join (String sep EmptyString) parts
    +:+ String sep (Py.str_join (String sep EmptyString) more).
Proof.
  intros Hparts Hmore. induction parts as [|s parts IH]; [done|].
  destruct parts as [|s' parts].
  - simpl app. by rewrite str_join_cons.
  - change ((s :: s' :: parts) ++ more) with (s :: ((s' :: parts) ++ more)).
    rewrite !str_join_cons by done. rewrite IH by done.
    by rewrite string_app_assoc.
Qed.

Lemma str_join_head sep (c : ascii) s parts :
  Py.str_join (String sep EmptyString) (String c s :: parts)
  = String c (Py.str_join (String sep EmptyString) (s :: parts)).
Proof. by destruct parts. Qed.

(** Joining what a split gave restores the string. *)
Lemma str_join_split sep s :
  Py.str_join (String sep EmptyString) (Py.str_split sep s) = s.
Proof.
  induction s as [|c rest IH]; simpl; [done|].
  pose proof (str_split_nonempty sep rest) as Hne.
  destruct (Ascii.eqb_spec c sep) as [->|_].
  - rewrite str_join_cons by done. by rewrite IH.
  - destruct (Py.str_split sep rest) as [|part parts]; [done|].
    by rewrite str_join_head, IH.
Qed.

(** The variant goes in as a new segment right before the extension,
    and the rest of the path stays as it is written. *)
Lemma new_file_path_inserts stem ext variant :
  sep_free "." ext = true →
  Utilities.new_file_path (stem +:+ String "." ext) variant
  = stem +:+ String "." (variant +:+ String "." ext).
Proof.
  intros Hext. unfold Utilities.new_file_path, Py.last_part, Py.init_parts.
  rewrite str_split_snoc by done.
  rewrite last_last, removelast_last.
  rewrite str_join_app; [|apply str_split_nonempty|done].
  by rewrite str_join_split.
Qed.

(** A path without a dot is its own extension: the variant then comes
    first. *)
Lemma new_file_path_no_dot s variant :
  sep_free "." s = true →
  Utilities.new_file_path s variant = variant +:+ String "." s.
Proof.
  intros Hs. unfold Utilities.new_file_path. by rewrite str_split_sep_free.
Qed.

(** The loop that appends one derived path per base path builds the
    list of the derived paths, in the order of the base paths. *)
Lemma append_loop_map {A B} (f : A → B) (xs : list A) : ∀ acc,
  fold_left (λ acc x, acc ++ [f x]) xs acc = acc ++ (f <$> xs).
Proof.
  induction xs as [|x xs IH]; intros acc; simpl.
  - by rewrite app_nil_r.
  - by rewrite IH, <- app_assoc.
Qed.

Lemma add_config_set_files_app config_files config_set :
  Utilities._add_config_set_files config_files config_set
  = config_files ++ ((λ p, Utilities.new_file_path p config_set) <$> config_files).
Proof.
  unfold Utilities._add_config_set_files.
  by rewrite (append_loop_map (λ p, Utilities.new_file_path p config_set)).
Qed.

(** C2, as the code has it. The overlay path of ["a/b.yml"] for the
    variant ["prod"] is ["a/b.prod.yml"]: the variant is a new segment
    right before the extension and the location keeps its slash.  The
    dots come in when the loader splits the path: package ["a"], file
    ["b.prod.yml"].  In general everything before the last dot is kept
    as written. *)
Theorem new_file_path_keeps_location :
  Utilities.new_file_path "a/b.yml" "prod" = "a/b.prod.yml"
  ∧ Utilities._split_package_file_path "a/b.prod.yml" = ("a", "b.prod.yml")
  ∧ (∀ stem ext variant,
       sep_free "." ext = true →
       Utilities.new_file_path (stem +:+ String "." ext) variant
       = stem +:+ String "." (variant +:+ String "." ext)).
Proof.
  split_and!; [reflexivity | reflexivity |].
  intros stem ext variant. apply new_file_path_inserts.
Qed.

(** C2 as stated fails: the derived path is not ["a.b.prod.yml"]. *)
Lemma new_file_path_not_dotted :
  Utilities.new_file_path "a/b.yml" "prod" = "a/b.prod.yml"
  ∧ Utilities.new_file_path "a/b.yml" "prod" ≠ "a.b.prod.yml".
Proof. split; [reflexivity | discriminate]. Qed.

(** C3. The result is the base paths followed by the overlay path of
    each, in the same order: twice as long as the input, with the
    input as its first half. *)
Theorem add_config_set_files_spec (base_paths : list string) (variant : string) :
  Utilities._add_config_set_files base_paths variant
  = base_paths ++ ((λ p, Utilities.new_file_path p variant) <$> base_paths)
  ∧ length (Utilities._add_config_set_files base_paths variant) = 2 * length base_paths
  ∧ take (length base_paths) (Utilities._add_config_set_files base_paths variant)
    = base_paths
  ∧ drop (length base_paths) (Utilities._add_config_set_files base_paths variant)
    = (λ p, Utilities.new_file_path p variant) <$> base_paths
  ∧ Utilities._add_config_set_files ["a.yml"; "b.yml"] "dev"
    = ["a.yml"; "b.yml"; "a.dev.yml"; "b.dev.yml"].
Proof.
  rewrite add_config_set_files_app. split_and!.
  - done.
  - rewrite length_app, length_fmap. lia.
  - by rewrite take_app_length.
  - by rewrite drop_app_length.
  - reflexivity.
Qed.

(** *** More on overlay paths *)

Lemma string_length_app (s1 s2 : string) :
  String.length (s1 +:+ s2) = String.length s1 + String.length s2.
Proof.
  induction s1 as [|c s1 IH]; [done|].
  rewrite string_app_cons. simpl. by rewrite IH.
Qed.

Lemma str_split_parts_sep_free sep s : Forall (λ part, sep_free sep part = true) (Py.str_split sep s).
Proof.
  induction s as [|c rest IH]; simpl; [by repeat constructor|].
  destruct (Ascii.eqb c sep) eqn:Hc; [by constructor|].
  destruct (Py.str_split sep rest) as [|part parts].
  - constructor; [|done]. simpl. by rewrite Hc.
  - inversion_clear IH. constructor; [|done]. simpl. by rewrite Hc.
Qed.

Lemma str_split_cons sep s rest :
  sep_free sep s = true →
  Py.str_split sep (s +:+ String sep rest) = s :: Py.str_split sep rest.
Proof.
  induction s as [|c s IH]; intros Hs.
  - rewrite string_app_nil_l. simpl. by rewrite Ascii.eqb_refl.
  - simpl in Hs. apply andb_prop in Hs as [Hc Hs]. apply negb_true_iff in Hc.
    rewrite string_app_cons. simpl. by rewrite Hc, IH.
Qed.

(** Splitting what a join gave restores the segments, when no segment
    holds the separator. *)
Lemma str_split_join sep parts :
  parts ≠ [] →
  Forall (λ part, sep_free sep part = true) parts →
  Py.str_split sep (Py.str_join (String sep EmptyString) parts) = parts.
Proof.
  intros Hne Hfree. induction Hfree as [|part parts Hpart Hparts IH]; [done|].
  destruct parts as [|part' parts].
  - by apply str_split_sep_free.
  - rewrite str_join_cons by done. rewrite str_split_cons by done.
    by rewrite IH.
Qed.

Lemma split_init_last sep s :
  Py.str_split sep s
  = Py.init_parts (Py.str_split sep s) ++ [Py.last_part (Py.str_split sep s)].
Proof. apply app_removelast_last, str_split_nonempty. Qed.

(** Every path is either without a dot, or a stem and an extension
    without a dot around its last dot. *)
Lemma path_shape s :
  sep_free "." s = true
  ∨ ∃ stem ext, s = stem +:+ String "." ext ∧ sep_free "." ext = true.
Proof.
  pose proof (str_join_split "." s) as Hjoin.
  pose proof (str_split_parts_sep_free "." s) as Hfree.
  rewrite (split_init_last "." s) in Hjoin, Hfree.
  apply Forall_app in Hfree as [_ Hext]. inversion_clear Hext as [|?? Hext' _].
  destruct (Py.init_parts (Py.str_split "." s)) as [|part parts] eqn:Hinit.
  - left. simpl in Hjoin. by rewrite <- Hjoin.
  - right. rewrite str_join_app in Hjoin by done. simpl in Hjoin.
    eexists _, _. split; [symmetry; apply Hjoin|done].
Qed.

(** X5. The overlay path is longer than the base path by the variant and
    one dot: it is never the base path itself. *)
Theorem new_file_path_length (config_file config_set : string) :
  String.length (Utilities.new_file_path config_file config_set)
  = String.length config_file + String.length config_set + 1
  ∧ Utilities.new_file_path config_file config_set ≠ config_file.
Proof.
  assert (Hlen : String.length (Utilities.new_file_path config_file config_set)
                 = String.length config_file + String.length config_set + 1).
  { destruct (path_shape config_file) as [Hfree|(stem & ext & -> & Hext)].
    - rewrite new_file_path_no_dot by done.
      rewrite string_length_app. simpl. lia.
    - rewrite new_file_path_inserts by done.
      rewrite !string_length_app. simpl. rewrite string_length_app. simpl. lia. }
  split; [done|]. intros Heq. rewrite Heq in Hlen. lia.
Qed.

Lemma new_file_path_split (config_file config_set : string) :
  sep_free "." config_set = true →
  Py.str_split "." (Utilities.new_file_path config_file config_set)
  = Py.init_parts (Py.str_split "." config_file)
    ++ [config_set; Py.last_part (Py.str_split "." config_file)].
Proof.
  intros Hset. unfold Utilities.new_file_path. apply str_split_join.
  - by destruct (Py.init_parts (Py.str_split "." config_file)).
  - pose proof (str_split_parts_sep_free "." config_file) as Hfree.
    rewrite (split_init_last "." config_file) in Hfree.
    apply Forall_app in Hfree as [Hinit Hext]. inversion_clear Hext.
    apply Forall_app. split; [done|]. by repeat constructor.
Qed.

(** X6. For a variant without a dot, the segments of the overlay path are
    those of the base path with the variant put in before the last:
    the extension stays the last segment. *)
Theorem new_file_path_segments (config_file config_set : string) :
  sep_free "." config_set = true →
  Py.str_split "." (Utilities.new_file_path config_file config_set)
  = Py.init_parts (Py.str_split "." config_file)
    ++ [config_set; Py.last_part (Py.str_split "." config_file)]
  ∧ Py.last_part (Py.str_split "." (Utilities.new_file_path config_file config_set))
    = Py.last_part (Py.str_split "." config_file).
Proof.
  intros Hset. pose proof (new_file_path_split config_file config_set Hset) as Hsplit.
  split; [done|]. rewrite Hsplit. unfold Py.last_part at 1.
  change [config_set; Py.last_part (Py.str_split "." config_file)]
    with ([config_set] ++ [Py.last_part (Py.str_split "." config_file)]).
  rewrite app_assoc. apply last_last.
Qed.

Lemma new_file_path_segments_witness :
  Py.str_split "." (Utilities.new_file_path "conf/app.base.yml" "prod")
  = ["conf/app"; "base"; "prod"; "yml"]
  ∧ Py.last_part (Py.str_split "." (Utilities.new_file_path "conf/app.base.yml" "prod"))
    = "yml".
Proof. exact (new_file_path_segments "conf/app.base.yml" "prod" eq_refl). Defined.

(** X7. For a variant without a dot, two base paths with the same overlay
    path are the same path: no two base files share an overlay. *)
Theorem new_file_path_injective (first second config_set : string) :
  sep_free "." config_set = true →
  Utilities.new_file_path first config_set = Utilities.new_file_path second config_set →
  first = second.
Proof.
  intros Hset Hsame.
  pose proof (new_file_path_split first config_set Hset) as Hfirst.
  pose proof (new_file_path_split second config_set Hset) as Hsecond.
  rewrite Hsame, Hsecond in Hfirst.
  change [config_set; Py.last_part (Py.str_split "." second)]
    with ([config_set] ++ [Py.last_part (Py.str_split "." second)]) in Hfirst.
  change [config_set; Py.last_part (Py.str_split "." first)]
    with ([config_set] ++ [Py.last_part (Py.str_split "." first)]) in Hfirst.
  rewrite !app_assoc in Hfirst.
  apply app_inj_tail in Hfirst as [Hinit Hlast].
  apply app_inj_tail in Hinit as [Hinit _].
  rewrite <- (str_join_split "." first), <- (str_join_split "." second).
  rewrite (split_init_last "." first), (split_init_last "." second).
  by rewrite Hinit, Hlast.
Qed.

Lemma new_file_path_injective_witness : "conf/base.yml" = "conf/base.yml".
Proof.
  exact (new_file_path_injective "conf/base.yml" "conf/base.yml" "dev" eq_refl eq_refl).
Defined.

(** X8. A base path without a dot is taken as its own extension: the
    variant goes in front of the whole path, directories included. *)
Theorem new_file_path_without_extension (config_file config_set : string) :
  sep_free "." config_file = true →
  Utilities.new_file_path config_file config_set
  = config_set +:+ String "." config_file.
Proof. apply new_file_path_no_dot. Qed.

Lemma new_file_path_without_extension_witness :
  Utilities.new_file_path "conf/settings" "prod" = "prod.conf/settings".
Proof. exact (new_file_path_without_extension "conf/settings" "prod" eq_refl). Defined.

(** *** Package path and file name *)

Lemma cut_after_last_slash_None p :
  Py.cut_after_last_slash p = None ↔ sep_free "/" p = true.
Proof.
  induction p as [|c rest IH]; simpl; [done|].
  destruct (Py.cut_after_last_slash rest) as [[head tail]|].
  - split; [done|]. intros [_ Hrest]%andb_prop. by apply IH in Hrest.
  - destruct (Ascii.eqb c "/"); simpl; [done|]. split; [|done].
    intros _. by apply IH.
Qed.

Lemma cut_after_last_slash_Some p head tail :
  Py.cut_after_last_slash p = Some (head, tail) →
  p = head +:+ tail ∧ sep_free "/" tail = true.
Proof.
  revert head tail. induction p as [|c rest IH]; intros head tail; simpl; [done|].
  destruct (Py.cut_after_last_slash rest) as [[head' tail']|] eqn:Hrest.
  - intros [= <- <-]. destruct (IH _ _ eq_refl) as [-> Htail]. by rewrite string_app_cons.
  - destruct (Ascii.eqb c "/"); [|done]. intros [= <- <-]. split; [done|].
    by apply cut_after_last_slash_None.
Qed.

Lemma replace_slash_cons (c : ascii) rest :
  Py.replace_from "/" "." 0 (String c rest)
  = if Ascii.eqb c "/" then String "." (Py.replace_from "/" "." 0 rest)
    else String c (Py.replace_from "/" "." 0 rest).
Proof.
  cbn [Py.replace_from]. unfold String.prefix.
  destruct (ascii_dec "/" c) as [<-|Hne].
  - by destruct rest.
  - destruct (Ascii.eqb_spec c "/"); [congruence|done].
Qed.

Lemma replace_slash_free s : sep_free "/" (Py.str_replace "/" "." s) = true.
Proof.
  unfold Py.str_replace.
  induction s as [|c rest IH]; [done|].
  rewrite replace_slash_cons.
  destruct (Ascii.eqb c "/") eqn:Hc; simpl; [done|].
  by rewrite Hc.
Qed.

Lemma sep_free_app sep s1 s2 :
  sep_free sep (s1 +:+ s2) = sep_free sep s1 && sep_free sep s2.
Proof.
  induction s1 as [|c s1 IH]; [done|].
  rewrite string_app_cons. simpl. by rewrite IH, andb_assoc.
Qed.

Lemma cut_after_last_slash_head p head tail :
  Py.cut_after_last_slash p = Some (head, tail) → sep_free "/" head = false.
Proof.
  revert head tail. induction p as [|c rest IH]; intros head tail; simpl; [done|].
  destruct (Py.cut_after_last_slash rest) as [[head' tail']|] eqn:Hrest.
  - intros [= <- <-]. simpl. by rewrite (IH _ _ eq_refl), andb_false_r.
  - destruct (Ascii.eqb c "/") eqn:Hc; [|done]. intros [= <- <-]. simpl. by rewrite Hc.
Qed.

(** X9. The file name is what follows the last slash of the path and the
    package path holds no slash; a path without a slash is all file
    name, with an empty package path. *)
Theorem split_package_file_path_parts (file_path : string) :
  sep_free "/" (Utilities._split_package_file_path file_path).1 = true
  ∧ sep_free "/" (Utilities._split_package_file_path file_path).2 = true
  ∧ (∃ location,
       file_path = location +:+ (Utilities._split_package_file_path file_path).2)
  ∧ (sep_free "/" file_path = true →
     Utilities._split_package_file_path file_path = (EmptyString, file_path)).
Proof.
  unfold Utilities._split_package_file_path, Py.os_path_split.
  destruct (Py.cut_after_last_slash file_path) as [[head tail]|] eqn:Hcut; simpl.
  - pose proof (cut_after_last_slash_head _ _ _ Hcut) as Hhead.
    apply cut_after_last_slash_Some in Hcut as [-> Htail].
    split_and!; [apply replace_slash_free|done|by eexists|].
    rewrite sep_free_app, Hhead. done.
  - apply cut_after_last_slash_None in Hcut.
    split_and!; [apply replace_slash_free|done|by exists EmptyString|].
    intros _. by destruct file_path.
Qed.

End paths.



(** ** The loader *)

Section loader.
Context (res : resources).

Lemma load_yaml_outcome file_path :
  (let '(package_path, file_name) := Utilities._split_package_file_path file_path in
   Utilities._load_yaml res package_path file_name)
  = match outcome res file_path with
    | Parsed content => inr content
    | FileNotFound => inr (VDict ∅)
    | ReadFailure e => inl e
    end.
Proof.
  unfold outcome, Utilities._load_yaml.
  by destruct (Utilities._split_package_file_path file_path).
Qed.

Lemma load_loop_step file_path remaining config_dicts :
  Utilities.load_loop res (file_path :: remaining) config_dicts
  = match outcome res file_path with
    | ReadFailure e => inl e
    | _ => Utilities.load_loop res remaining (config_dicts ++ entry res file_path)
    end.
Proof.
  pose proof (load_yaml_outcome file_path) as Hload.
  unfold entry. simpl.
  destruct (Utilities._split_package_file_path file_path) as [package_path file_name].
  rewrite Hload.
  destruct (outcome res file_path) as [|text|content]; simpl; [done..|].
  destruct (is_None content); simpl; by rewrite ?app_nil_r.
Qed.

Lemma load_loop_readable config_files : ∀ config_dicts,
  Forall (readable res) config_files →
  Utilities.load_loop res config_files config_dicts
  = inr (config_dicts ++ (config_files ≫= entry res)).
Proof.
  induction config_files as [|file_path remaining IH]; intros config_dicts Hok.
  - simpl. by rewrite app_nil_r.
  - inversion_clear Hok as [|?? Hhead Htail].
    rewrite load_loop_step.
    destruct (outcome res file_path) as [|text|content] eqn:Hout.
    + rewrite IH by done. by rewrite <- app_assoc.
    + by destruct (Hhead text).
    + rewrite IH by done. by rewrite <- app_assoc.
Qed.

(** The loader stops at the first read that fails. *)
Lemma load_loop_fails before file_path (e : exn) after : ∀ config_dicts,
  Forall (readable res) before →
  outcome res file_path = ReadFailure e →
  Utilities.load_loop res (before ++ file_path :: after) config_dicts = inl e.
Proof.
  induction before as [|p before IH]; intros config_dicts Hok Hfail.
  - simpl app. by rewrite load_loop_step, Hfail.
  - inversion_clear Hok as [|?? Hhead Htail].
    change ((p :: before) ++ file_path :: after)
      with (p :: (before ++ file_path :: after)).
    rewrite load_loop_step.
    destruct (outcome res p) as [|e'|content] eqn:Hout; [by apply IH| |by apply IH].
    by destruct (Hhead e').
Qed.

Lemma entries_length config_files :
  Forall (readable res) config_files →
  length (config_files ≫= entry res)
  + length (filter (λ p, parses_to_None res p = true) config_files)
  = length config_files.
Proof.
  induction 1 as [|p config_files Hhead _ IH]; [done|].
  rewrite bind_cons, length_app, filter_cons.
  unfold entry, parses_to_None, readable in *.
  destruct (outcome res p) as [|text|content].
  - case_decide; [done|]. simpl. lia.
  - by destruct (Hhead text).
  - destruct (is_None content); case_decide; try done; simpl; lia.
Qed.

(** C4, as the code has it. When no read fails, the loader returns,
    in the order of the paths, the empty mapping for each file that
    is not there and the parsed content of each file that is, except
    that a file whose content parses to [None] adds nothing: the
    output is shorter than the input by the number of such files. *)
Theorem load_configs_spec (config_files : list string) :
  Forall (readable res) config_files →
  Utilities._load_configs res config_files = inr (config_files ≫= entry res)
  ∧ length (config_files ≫= entry res)
    = length config_files
      - length (filter (λ p, parses_to_None res p = true) config_files)
  ∧ (∀ p, outcome res p = FileNotFound → entry res p = [VDict ∅])
  ∧ (∀ p, outcome res p = Parsed VNone → entry res p = [])
  ∧ (∀ p content, outcome res p = Parsed content → is_None content = false →
       entry res p = [content]).
Proof.
  intros Hok. split_and!.
  - unfold Utilities._load_configs. by rewrite load_loop_readable.
  - pose proof (entries_length config_files Hok). lia.
  - intros p Hp. unfold entry. by rewrite Hp.
  - intros p Hp. unfold entry. by rewrite Hp.
  - intros p content Hp Hsome. unfold entry. by rewrite Hp, Hsome.
Qed.

End loader.

Lemma demo_resources_readable :
  Forall (readable demo_resources) ["conf/base.yml"; "conf/empty.yml"; "conf/missing.yml"].
Proof. repeat constructor; intros text; vm_compute; discriminate. Defined.

Lemma load_configs_spec_witness :
  Utilities._load_configs demo_resources
    ["conf/base.yml"; "conf/empty.yml"; "conf/missing.yml"]
  = inr [VDict {[ "x" := VInt 1 ]}; VDict ∅].
Proof.
  exact (proj1 (load_configs_spec demo_resources
                  ["conf/base.yml"; "conf/empty.yml"; "conf/missing.yml"]
                  demo_resources_readable)).
Defined.

(** C4 as stated fails: a file that exists and is empty adds no entry,
    so three paths give two documents. *)
Lemma load_configs_skips_None :
  Utilities._load_configs demo_resources
    ["conf/base.yml"; "conf/empty.yml"; "conf/missing.yml"]
  = inr [VDict {[ "x" := VInt 1 ]}; VDict ∅]
  ∧ length [VDict {[ "x" := VInt 1 ]}; VDict ∅]
    ≠ length ["conf/base.yml"; "conf/empty.yml"; "conf/missing.yml"].
Proof. split; [vm_compute; reflexivity | discriminate]. Qed.

(** ** The declaration *)

Section declaration.
Implicit Types (cls : pyclass).

(** What [config_files] does on each shape of the attribute: only the
    outer type of the declared value is looked at. *)
Lemma config_files_outcome cls :
  ChimeraConf.config_files cls
  = match _config_files cls with
    | Undeclared => inl DeclarationMissing
    | PrivateAttr (VList []) => inl DeclarationEmpty
    | PrivateAttr (VList entries) => inr entries
    | PrivateAttr _ => inl DeclarationInvalid
    end.
Proof.
  unfold ChimeraConf.config_files.
  destruct (_config_files cls) as [|[| | | |[|entry entries]|]]; reflexivity.
Qed.

Lemma config_files_caught cls e :
  ChimeraConf.config_files cls = inl e → caught e = true.
Proof.
  rewrite config_files_outcome.
  destruct (_config_files cls) as [|[| | | |[|entry entries]|]];
    intros; by simplify_eq.
Qed.

(** C6 fails on the code: a declared list whose entries are not
    strings is returned as it is, and the resolution then fails on the
    first entry with the [AttributeError] of a missing [split], which
    the orchestrator does not turn into its own failure. *)
Theorem config_files_accepts_non_strings :
  is_str_list (VList [VInt 1; VInt 2]) = false
  ∧ ChimeraConf.config_files (permissive "Settings" (PrivateAttr (VList [VInt 1; VInt 2])))
    = inr [VInt 1; VInt 2]
  ∧ ChimeraConf.manifest ChimeraForm.initial demo_resources
      (permissive "Settings" (PrivateAttr (VList [VInt 1; VInt 2]))) None None
    = inl (AttributeError "object has no attribute 'split'").
Proof. split_and!; reflexivity. Qed.

End declaration.

(** ** The orchestrator *)

Section orchestrator.
Context (res : resources).
Implicit Types (cls : pyclass) (registry : ChimeraForm.t) (files : list string).

Lemma expect_strs_fmap files : expect_strs (VStr <$> files) = inr files.
Proof.
  induction files as [|file files IH]; [done|].
  rewrite fmap_cons. cbn [expect_strs]. by rewrite IH.
Qed.

(** With an override the call is the pipeline on the override list:
    the class is asked for nothing but its constructor. *)
Lemma manifest_override registry cls form files :
  ChimeraConf.manifest registry res cls form (Some files)
  = resolve_paths res cls (default (ChimeraForm.chimera_form registry) form) files.
Proof.
  unfold ChimeraConf.manifest, resolve_paths, ret. cbn [bind].
  rewrite expect_strs_fmap. by destruct form.
Qed.

Lemma load_loop_error config_files : ∀ config_dicts e,
  Utilities.load_loop res config_files config_dicts = inl e →
  ∃ package_path file_name, res package_path file_name = ReadFailure e.
Proof.
  induction config_files as [|file_path remaining IH]; intros config_dicts e.
  - done.
  - rewrite load_loop_step.
    destruct (outcome res file_path) as [|e'|content] eqn:Hout;
      [by apply IH| |by apply IH].
    intros [= <-]. unfold outcome in Hout.
    destruct (Utilities._split_package_file_path file_path) as [package_path file_name].
    by exists package_path, file_name.
Qed.

Lemma expect_dicts_error documents e :
  expect_dicts documents = inl e → ∃ msg, e = AttributeError msg.
Proof.
  induction documents as [|[] documents IH]; simpl; try done;
    try (intros [= <-]; by eexists).
  destruct (expect_dicts documents); simpl; [|done].
  intros [= <-]. by apply IH.
Qed.

Lemma expect_strs_error entries e :
  expect_strs entries = inl e → ∃ msg, e = AttributeError msg.
Proof.
  induction entries as [|[] entries IH]; simpl; try done;
    try (intros [= <-]; by eexists).
  destruct (expect_strs entries); simpl; [|done].
  intros [= <-]. by apply IH.
Qed.

(** What can go wrong once the base paths are known: the failure of
    a read, a document that is no mapping, or the failure of the
    constructor. *)
Lemma resolve_paths_error cls variant files e :
  resolve_paths res cls variant files = inl e →
  (∃ package_path file_name, res package_path file_name = ReadFailure e)
  ∨ e = AttributeError "object has no attribute 'items'"
  ∨ ∃ kwargs, validate cls kwargs = inl e.
Proof.
  unfold resolve_paths, Utilities._load_configs.
  destruct (Utilities.load_loop _ _ _) as [e'|config_dicts] eqn:Hload; simpl.
  { intros [= <-]. left. by eapply load_loop_error. }
  destruct (expect_dicts config_dicts) as [e'|dicts] eqn:Hdicts; simpl.
  { intros [= <-]. right. left. clear -Hdicts. revert e' Hdicts.
    induction config_dicts as [|[] documents IH]; intros e'; simpl; try done;
      try by intros [= <-].
    destruct (expect_dicts documents); simpl; [|done].
    intros [= <-]. by apply IH. }
  unfold construct. destruct (validate cls _) as [e'|obj] eqn:Hvalidate; [|done].
  intros [= <-]. right. right. by eexists.
Qed.

(** Without an override, a class whose declaration fails gives the one
    failure that names the class and quotes the declaration failure. *)
Lemma manifest_declaration_failure registry cls form e :
  ChimeraConf.config_files cls = inl e →
  ChimeraConf.manifest registry res cls form None
  = inl (ValueError (config_files_required cls e)).
Proof.
  intros He. unfold ChimeraConf.manifest.
  rewrite He, (config_files_caught _ _ He). done.
Qed.

Lemma manifest_declared registry cls form entries :
  ChimeraConf.config_files cls = inr entries →
  ChimeraConf.manifest registry res cls form None
  = bind (expect_strs entries)
      (resolve_paths res cls (default (ChimeraForm.chimera_form registry) form)).
Proof.
  intros He. unfold ChimeraConf.manifest. rewrite He. simpl.
  destruct (expect_strs entries); simpl; [done|].
  by destruct form.
Qed.

(** C7. With an override list the declaration plays no part: the call
    is the run of the pipeline on the override list and is the same
    for every declaration, a missing, malformed or empty one included,
    so what fails then is a read, a document or the constructor, with
    its own exception.  A failure of the declaration reaches the
    result in one way only: on a call without an override, as the
    [ValueError] that names the class and quotes it.  An exception of
    a collaborator is raised as it is, whatever its class; when no
    collaborator raises a [ValueError] with the orchestrator's
    message, no call with an override fails with it. *)
Theorem manifest_override_skips_declaration registry cls form files :
  (∀ d, ChimeraConf.manifest registry res (with_declaration cls d) form (Some files)
        = ChimeraConf.manifest registry res cls form (Some files))
  ∧ ChimeraConf.manifest registry res cls form (Some files)
    = resolve_paths res cls (default (ChimeraForm.chimera_form registry) form) files
  ∧ (∀ e, ChimeraConf.manifest registry res cls form (Some files) = inl e →
          (∃ package_path file_name, res package_path file_name = ReadFailure e)
          ∨ e = AttributeError "object has no attribute 'items'"
          ∨ ∃ kwargs, validate cls kwargs = inl e)
  ∧ (∀ e, ChimeraConf.config_files cls = inl e →
          ChimeraConf.manifest registry res cls form None
          = inl (ValueError (config_files_required cls e)))
  ∧ (∀ entries, ChimeraConf.config_files cls = inr entries →
          ChimeraConf.manifest registry res cls form None
          = bind (expect_strs entries)
              (resolve_paths res cls
                 (default (ChimeraForm.chimera_form registry) form)))
  ∧ ((∀ package_path file_name e,
        res package_path file_name
        ≠ ReadFailure (ValueError (config_files_required cls e))) →
     (∀ kwargs e,
        validate cls kwargs ≠ inl (ValueError (config_files_required cls e))) →
     ∀ e, ChimeraConf.manifest registry res cls form (Some files)
          ≠ inl (ValueError (config_files_required cls e)))
  ∧ Forall
      (λ d, ChimeraConf.manifest ChimeraForm.initial demo_resources
              (permissive "Settings" d) None (Some ["conf/base.yml"])
            = inr {[ "x" := VInt 1 ]})
      [Undeclared; PrivateAttr (VStr "conf/base.yml"); PrivateAttr (VList [])].
Proof.
  split_and!; [| | | | | |by repeat constructor].
  - intros d. by rewrite !manifest_override.
  - apply manifest_override.
  - intros e He. rewrite manifest_override in He. by apply resolve_paths_error in He.
  - intros e. apply manifest_declaration_failure.
  - intros entries. apply manifest_declared.
  - intros Hreader Hconstructor e He. rewrite manifest_override in He.
    apply resolve_paths_error in He as [(package_path & file_name & Hread)|[?|[kwargs ?]]].
    + by eapply Hreader.
    + done.
    + by eapply Hconstructor.
Qed.

(** C8. A call with an explicit variant gives the same result for
    every registry; after [set_form] a call without a variant is the
    call with the form that was set, and this can change the result;
    the registry starts at ["local"] and each [set_form] overwrites
    it. *)
Theorem explicit_form_ignores_registry cls form override :
  (∀ registry registry',
     ChimeraConf.manifest registry res cls (Some form) override
     = ChimeraConf.manifest registry' res cls (Some form) override)
  ∧ (∀ registry new_form,
       ChimeraConf.manifest (ChimeraForm.set_form new_form registry) res cls None override
       = ChimeraConf.manifest registry res cls (Some new_form) override)
  ∧ ChimeraForm.chimera_form ChimeraForm.initial = "local"
  ∧ (∀ registry first second,
       ChimeraForm.set_form second (ChimeraForm.set_form first registry)
       = ChimeraForm.set_form second registry)
  ∧ (∀ registry new_form,
       ChimeraForm.chimera_form (ChimeraForm.set_form new_form registry) = new_form)
  ∧ ChimeraConf.manifest ChimeraForm.initial demo_resources
      (permissive "Settings" Undeclared) None (Some ["conf/base.yml"])
    = inr {[ "x" := VInt 1 ]}
  ∧ ChimeraConf.manifest (ChimeraForm.set_form "prod" ChimeraForm.initial) demo_resources
      (permissive "Settings" Undeclared) None (Some ["conf/base.yml"])
    = inr {[ "x" := VInt 2 ]}
  ∧ ChimeraConf.manifest (ChimeraForm.set_form "prod" ChimeraForm.initial) demo_resources
      (permissive "Settings" Undeclared) (Some "local") (Some ["conf/base.yml"])
    = inr {[ "x" := VInt 1 ]}.
Proof.
  split_and!; try reflexivity.
  all: vm_compute; reflexivity.
Qed.

(** *** More on loading and resolving *)

Lemma expect_dicts_app documents v :
  expect_dicts (documents ++ [v])
  = bind (expect_dicts documents)
      (λ dicts, match v with
                | VDict items => ret (dicts ++ [items])
                | _ => raise (AttributeError "object has no attribute 'items'")
                end).
Proof.
  induction documents as [|[] documents IH]; simpl; try done.
  rewrite IH. destruct (expect_dicts documents); simpl; [done|]. by destruct v.
Qed.

Lemma settle_app documents v :
  settle (documents ++ [v])
  = bind (settle documents)
      (λ merged, match v with
                 | VDict items => ret (Utilities._merge_dicts merged items)
                 | _ => raise (AttributeError "object has no attribute 'items'")
                 end).
Proof.
  unfold settle. rewrite expect_dicts_app.
  destruct (expect_dicts documents) as [e|dicts]; simpl; [done|].
  destruct v; simpl; try done. by rewrite merge_all_dicts_app.
Qed.

Lemma resolve_paths_settle cls variant files :
  resolve_paths res cls variant files
  = bind (bind (Utilities._load_configs res
                  (Utilities._add_config_set_files files variant)) settle)
      (construct cls).
Proof.
  unfold resolve_paths, settle.
  destruct (Utilities._load_configs res _) as [e|documents]; simpl; [done|].
  by destruct (expect_dicts documents).
Qed.

Lemma outcome_canon file_path :
  outcome (canon res) file_path
  = match outcome res file_path with
    | FileNotFound | Parsed VNone => Parsed (VDict ∅)
    | other => other
    end.
Proof.
  unfold outcome, canon. by destruct (Utilities._split_package_file_path file_path).
Qed.

Lemma load_loop_canon config_files : ∀ config_dicts config_dicts',
  settle config_dicts = settle config_dicts' →
  bind (Utilities.load_loop res config_files config_dicts) settle
  = bind (Utilities.load_loop (canon res) config_files config_dicts') settle.
Proof.
  induction config_files as [|file_path remaining IH]; intros acc acc' Hacc; [done|].
  rewrite !load_loop_step, outcome_canon. unfold entry. rewrite outcome_canon.
  destruct (outcome res file_path) as [|text|content] eqn:Hout.
  - apply IH. simpl. by rewrite !settle_app, Hacc.
  - done.
  - destruct content; simpl; apply IH; rewrite ?app_nil_r, ?settle_app, ?Hacc; try done.
    destruct (settle acc'); simpl; [done|]. by rewrite merge_dicts_empty_r.
Qed.

End orchestrator.


Lemma manifest_override_skips_declaration_witness :
  ChimeraConf.manifest ChimeraForm.initial demo_resources
    (permissive "Settings" Undeclared) None (Some ["conf/broken.yml"])
  = inl (SourceLoadFailure "could not parse")
  ∧ ChimeraConf.manifest ChimeraForm.initial demo_resources
      (permissive "Settings" Undeclared) None (Some ["conf/broken.yml"])
    ≠ inl (ValueError
             (config_files_required (permissive "Settings" Undeclared)
                DeclarationMissing)).
Proof.
  split; [reflexivity|].
  apply (manifest_override_skips_declaration demo_resources ChimeraForm.initial
           (permissive "Settings" Undeclared) None ["conf/broken.yml"]).
  - intros package_path file_name e. unfold demo_resources.
    repeat (destruct (String.eqb _ _)); discriminate.
  - intros kwargs e. discriminate.
Defined.

(** ** Resolution as a whole *)

Section resolution.
Implicit Types (res : resources) (cls : pyclass) (registry : ChimeraForm.t)
  (files : list string).

(** X10. A file that is missing, a file that is empty and a file that
    holds an empty mapping are interchangeable: the resolution gives
    the same result when each of the first two is replaced by the
    third. *)
Theorem manifest_canon registry res cls form override :
  ChimeraConf.manifest registry (canon res) cls form override
  = ChimeraConf.manifest registry res cls form override.
Proof.
  assert (Hpaths : ∀ variant files,
    resolve_paths (canon res) cls variant files = resolve_paths res cls variant files).
  { intros variant files. rewrite !resolve_paths_settle. f_equal.
    unfold Utilities._load_configs. symmetry. by apply load_loop_canon. }
  destruct override as [files|].
  - by rewrite !manifest_override, Hpaths.
  - destruct (ChimeraConf.config_files cls) as [e|entries] eqn:Hdecl.
    + by rewrite !(manifest_declaration_failure _ _ _ _ _ Hdecl).
    + rewrite !(manifest_declared _ _ _ _ _ Hdecl).
      destruct (expect_strs entries); simpl; [done|]. apply Hpaths.
Qed.

Lemma fold_merge_layers res (paths : list string) : ∀ base,
  Forall (loads_mapping res) paths →
  bind (expect_dicts (paths ≫= entry res))
    (λ dicts, ret (fold_left Utilities._merge_dicts dicts base))
  = inr (fold_left Utilities._merge_dicts (layer res <$> paths) base).
Proof.
  induction paths as [|p paths IH]; intros base Hok; [done|].
  inversion_clear Hok as [|?? Hp Hpaths].
  rewrite bind_cons, fmap_cons. cbn [fold_left].
  assert (Hstep : ∀ items,
    bind (expect_dicts (VDict items :: paths ≫= entry res))
      (λ dicts, ret (fold_left Utilities._merge_dicts dicts base))
    = inr (fold_left Utilities._merge_dicts (layer res <$> paths)
             (Utilities._merge_dicts base items))).
  { intros items. rewrite <- (IH _ Hpaths). cbn [expect_dicts].
    by destruct (expect_dicts (paths ≫= entry res)). }
  unfold loads_mapping in Hp.
  assert (Hentry : entry res p
    = match outcome res p with
      | FileNotFound => [VDict ∅]
      | Parsed content => if is_None content then [] else [content]
      | ReadFailure _ => []
      end) by done.
  assert (Hlayer : layer res p
    = match outcome res p with Parsed (VDict items) => items | _ => ∅ end) by done.
  rewrite Hentry, Hlayer.
  destruct (outcome res p) as [|text|[]]; try done; simpl app.
  - apply Hstep.
  - rewrite merge_dicts_empty_r. by apply IH.
  - apply Hstep.
Qed.

Lemma loads_mapping_readable res p : loads_mapping res p → readable res p.
Proof.
  unfold loads_mapping, readable. intros Hp text Hout. by rewrite Hout in Hp.
Qed.

(** X11. When every base file and every overlay file is missing, empty or
    a mapping, the object is constructed from the fold of the base
    files' mappings, in their order, followed by the overlay files'
    mappings, in the same order: every overlay is merged over all the
    base files. *)
Theorem manifest_layers registry res cls variant files :
  Forall (loads_mapping res) (Utilities._add_config_set_files files variant) →
  ChimeraConf.manifest registry res cls (Some variant) (Some files)
  = construct cls
      (fold_left Utilities._merge_dicts
         (layer res <$> ((λ p, Utilities.new_file_path p variant) <$> files))
         (Utilities._merge_all_dicts (layer res <$> files))).
Proof.
  intros Hok. rewrite manifest_override. simpl. unfold resolve_paths.
  unfold Utilities._load_configs. rewrite load_loop_readable.
  2:{ eapply Forall_impl; [done|]. apply loads_mapping_readable. }
  simpl. pose proof (fold_merge_layers res _ ∅ Hok) as Hfold.
  destruct (expect_dicts _) as [e|dicts]; simpl in *; [done|].
  injection Hfold as Hfold. unfold Utilities._merge_all_dicts at 1. rewrite Hfold.
  rewrite add_config_set_files_app, fmap_app, fold_left_app. done.
Qed.

Lemma manifest_layers_witness :
  ChimeraConf.manifest ChimeraForm.initial demo_resources
    (permissive "Settings" Undeclared) (Some "prod")
    (Some ["conf/base.yml"; "conf/empty.yml"])
  = inr {[ "x" := VInt 2 ]}.
Proof.
  rewrite manifest_layers; [vm_compute; reflexivity|].
  repeat constructor.
Defined.

(** X12. The loader stops at the first read that fails and returns that
    failure, whatever the later files are: no list of documents is
    returned. *)
Theorem load_configs_fails_fast res (before : list string) (file_path : string)
    (e : exn) (after : list string) :
  Forall (readable res) before →
  outcome res file_path = ReadFailure e →
  Utilities._load_configs res (before ++ file_path :: after) = inl e.
Proof. intros Hbefore Hfail. by apply load_loop_fails. Qed.

Lemma load_configs_fails_fast_witness :
  Utilities._load_configs demo_resources
    (["conf/base.yml"; "conf/missing.yml"] ++ "conf/broken.yml" :: ["conf/empty.yml"])
  = inl (SourceLoadFailure "could not parse").
Proof.
  apply load_configs_fails_fast; [|reflexivity].
  repeat constructor; intros text; vm_compute; discriminate.
Defined.

(** X13. A base file that cannot be read fails the whole resolution with
    the exception its read raised, as it is and whatever its class,
    before any overlay file is looked at and without the constructor
    being called. *)
Theorem manifest_base_failure registry res cls form
    (before : list string) (file_path : string) (e : exn) (after : list string) :
  Forall (readable res) before →
  outcome res file_path = ReadFailure e →
  ChimeraConf.manifest registry res cls form (Some (before ++ file_path :: after))
  = inl e.
Proof.
  intros Hbefore Hfail. rewrite manifest_override. unfold resolve_paths.
  rewrite add_config_set_files_app, <- app_assoc. simpl app.
  unfold Utilities._load_configs. by rewrite (load_loop_fails _ _ _ _ _ _ Hbefore Hfail).
Qed.

Lemma manifest_base_failure_witness :
  ChimeraConf.manifest ChimeraForm.initial demo_resources
    (permissive "Settings" Undeclared) None
    (Some (["conf/base.yml"] ++ "conf/broken.yml" :: ["conf/empty.yml"]))
  = inl (SourceLoadFailure "could not parse").
Proof.
  apply manifest_base_failure; [|reflexivity].
  repeat constructor; intros text; vm_compute; discriminate.
Defined.

(** X14. A class that declares a non-empty list of strings resolves, with
    no override, as any class with the same name and constructor does
    with that list as override. *)
Theorem manifest_declared_as_override registry res cls form files :
  files ≠ [] →
  ChimeraConf.manifest registry res
    (with_declaration cls (PrivateAttr (VList (VStr <$> files)))) form None
  = ChimeraConf.manifest registry res cls form (Some files).
Proof.
  intros Hfiles.
  rewrite (manifest_declared _ _ _ _ (VStr <$> files)).
  - rewrite expect_strs_fmap, manifest_override. done.
  - rewrite config_files_outcome. simpl. by destruct files.
Qed.

Lemma manifest_declared_as_override_witness :
  ChimeraConf.manifest ChimeraForm.initial demo_resources
    (with_declaration (permissive "Settings" Undeclared)
       (PrivateAttr (VList (VStr <$> ["conf/base.yml"])))) (Some "prod") None
  = ChimeraConf.manifest ChimeraForm.initial demo_resources
      (permissive "Settings" Undeclared) (Some "prod") (Some ["conf/base.yml"]).
Proof. by apply manifest_declared_as_override. Defined.

(** X15. The check for an empty list is made on the declaration only: an
    empty override list is accepted, nothing is loaded and the object
    is constructed from no field at all, while a declared empty list
    fails. *)
Theorem manifest_empty_override registry res cls form :
  ChimeraConf.manifest registry res cls form (Some []) = construct cls ∅
  ∧ ChimeraConf.manifest registry res
      (with_declaration cls (PrivateAttr (VList []))) form None
    = inl (ValueError
             (config_files_required (with_declaration cls (PrivateAttr (VList [])))
                DeclarationEmpty)).
Proof.
  split.
  - by rewrite manifest_override.
  - by apply manifest_declaration_failure.
Qed.

Lemma expect_dicts_non_mapping documents :
  Exists (λ document, is_dict document = false) documents →
  expect_dicts documents = inl (AttributeError "object has no attribute 'items'").
Proof.
  induction 1 as [document documents Hdocument|document documents _ IH].
  - by destruct document.
  - destruct document; simpl; try done. by rewrite IH.
Qed.

(** X16. A file whose content parses to something that is neither [None]
    nor a mapping (a sequence or a scalar at the top level) makes the
    resolution fail with an [AttributeError], once every file has been
    read; the constructor is not called. *)
Theorem manifest_non_mapping_document registry res cls form files :
  Forall (readable res)
    (Utilities._add_config_set_files files
       (default (ChimeraForm.chimera_form registry) form)) →
  Exists (λ document, is_dict document = false)
    (Utilities._add_config_set_files files
       (default (ChimeraForm.chimera_form registry) form) ≫= entry res) →
  ChimeraConf.manifest registry res cls form (Some files)
  = inl (AttributeError "object has no attribute 'items'").
Proof.
  intros Hreadable Hdocument. rewrite manifest_override. unfold resolve_paths.
  unfold Utilities._load_configs. rewrite load_loop_readable by done. simpl.
  by rewrite expect_dicts_non_mapping.
Qed.

Lemma manifest_non_mapping_document_witness :
  ChimeraConf.manifest ChimeraForm.initial list_resources
    (permissive "Settings" Undeclared) None (Some ["conf/list.yml"])
  = inl (AttributeError "object has no attribute 'items'").
Proof.
  apply manifest_non_mapping_document.
  - repeat constructor; intros text; vm_compute; discriminate.
  - apply Exists_cons_hd. reflexivity.
Defined.

(** X17. [config_files] returns a list exactly when the declared value is
    a list with at least one entry, and then returns that very list:
    it never returns an empty list, and the entries are not looked
    at. *)
Theorem config_files_succeeds_iff cls (entries : list value) :
  ChimeraConf.config_files cls = inr entries
  ↔ _config_files cls = PrivateAttr (VList entries) ∧ entries ≠ [].
Proof.
  rewrite config_files_outcome.
  destruct (_config_files cls) as [|[| | | |[|entry rest]|]]; split;
    try done; try (by intros [? ?]); try (by intros [[=] ?]).
  - intros [= <-]. done.
  - intros [[= <-] _]. done.
Qed.

End resolution.

(** ** The second pipeline *)

(** C10. The functions of [config_builder.py] are those of
    [utilities.py] and [chimera_conf.py] on every input, and
    [load_config] is [manifest] run on the value of the other
    registry; both registries start at ["local"]. *)
Theorem config_builder_same_pipeline :
  (∀ base overlay,
     ConfigBuilder.merge_dicts base overlay = Utilities._merge_dicts base overlay)
  ∧ (∀ file_path,
       ConfigBuilder.split_package_file_path file_path
       = Utilities._split_package_file_path file_path)
  ∧ (∀ res package_path file_name,
       ConfigBuilder.load_yaml res package_path file_name
       = Utilities._load_yaml res package_path file_name)
  ∧ (∀ res config_files,
       ConfigBuilder.load_configs res config_files
       = Utilities._load_configs res config_files)
  ∧ (∀ dicts, ConfigBuilder.merge_all_dicts dicts = Utilities._merge_all_dicts dicts)
  ∧ (∀ config_files config_set,
       ConfigBuilder.add_config_set_files config_files config_set
       = Utilities._add_config_set_files config_files config_set)
  ∧ (∀ cls, ConfigBuilder.config_files cls = ChimeraConf.config_files cls)
  ∧ (∀ name res cls variant override,
       ConfigBuilder.load_config {| ConfigBuilder.config_set := name |} res cls
         variant override
       = ChimeraConf.manifest {| ChimeraForm.chimera_form := name |} res cls
           variant override)
  ∧ ConfigBuilder.config_set ConfigBuilder.initial = "local"
  ∧ ChimeraForm.chimera_form ChimeraForm.initial = "local".
Proof.
  split_and!; reflexivity.
Qed.

(** ** What the merge writes *)

Section store.
Implicit Types (σ : Store.store) (l base overlay merged : Store.loc)
  (v : Store.ref_value).

Lemma store_merge_unfold fuel σ base overlay :
  Store._merge_dicts (S fuel) σ base overlay
  = (base_items ← Store.read_dict σ base;
     overlay_items ← Store.read_dict σ overlay;
     σ' ← map_fold (merge_item fuel (fresh (dom σ)))
            (Some (<[fresh (dom σ) := Store.ODict base_items]> σ)) overlay_items;
     Some (σ', fresh (dom σ))).
Proof. reflexivity. Qed.

Lemma fresh_unused σ : σ !! fresh (dom σ) = None.
Proof. apply not_elem_of_dom, is_fresh. Qed.

Lemma setitem_frame σ0 σ σ' merged key v :
  σ0 !! merged = None → σ0 ⊆ σ →
  Store.setitem σ merged key v = Some σ' →
  σ0 ⊆ σ'.
Proof.
  intros Hnew Hsub. unfold Store.setitem.
  destruct (Store.read_dict σ merged) as [items|]; simpl; [|done].
  intros [= <-]. by apply insert_subseteq_r.
Qed.

(** The loop keeps every object of a store [σ0] in which [merged] is
    not allocated, provided the nested calls keep the objects of the
    store they start from. *)
Lemma merge_loop_frame fuel σ0 merged
    (overlay_items : gmap string Store.ref_value) :
  (∀ σ b o σ' r, Store._merge_dicts fuel σ b o = Some (σ', r) → σ ⊆ σ') →
  σ0 !! merged = None →
  ∀ σ σ',
    σ0 ⊆ σ →
    map_fold (merge_item fuel merged) (Some σ) overlay_items = Some σ' →
    σ0 ⊆ σ'.
Proof.
  intros IH Hnew σ.
  induction overlay_items as [|key v items Hfresh Hfirst IHitems]
    using map_first_key_ind; intros σ' Hsub.
  - rewrite map_fold_empty. by intros [= <-].
  - rewrite (map_fold_insert_first_key _ _ _ _ _ Hfresh Hfirst).
    destruct (map_fold (merge_item fuel merged) (Some σ) items) as [σ1|] eqn:Hfold;
      [|done].
    specialize (IHitems σ1 Hsub eq_refl).
    unfold merge_item. simpl.
    destruct (Store.read_dict σ1 merged) as [merged_items|]; simpl; [|done].
    destruct (merged_items !! key) as [current|].
    + destruct (Store.is_dict σ1 v && Store.is_dict σ1 current).
      * destruct (Store._merge_dicts fuel σ1 _ _) as [[σ2 nested]|] eqn:Hnested;
          simpl; [|done].
        intros Hset. apply IH in Hnested.
        apply (setitem_frame σ0 σ2 σ' merged key (Store.RRef nested));
          [done|by trans σ1|done].
      * intros Hset. by apply (setitem_frame σ0 σ1 σ' merged key v).
    + intros Hset. by apply (setitem_frame σ0 σ1 σ' merged key v).
Qed.

(** Every object of the store is after the call what it was before,
    and the result is at an address that was not in use. *)
Lemma store_merge_frame fuel : ∀ σ base overlay σ' merged,
  Store._merge_dicts fuel σ base overlay = Some (σ', merged) →
  σ ⊆ σ' ∧ σ !! merged = None.
Proof.
  induction fuel as [|fuel IH]; intros σ base overlay σ' merged; [done|].
  rewrite store_merge_unfold.
  destruct (Store.read_dict σ base) as [base_items|]; simpl; [|done].
  destruct (Store.read_dict σ overlay) as [overlay_items|]; simpl; [|done].
  destruct (map_fold _ _ overlay_items) as [σ1|] eqn:Hloop; simpl; [|done].
  intros [= <- <-]. split; [|apply fresh_unused].
  eapply merge_loop_frame; [|apply fresh_unused| |done].
  - intros ????? Hrun. by apply IH in Hrun as [? _].
  - apply insert_subseteq, fresh_unused.
Qed.

(** What can be read below a value stays readable, and the same, in a
    store that keeps every object. *)
Lemma reify_weaken depth : ∀ σ σ' v t,
  σ ⊆ σ' →
  Store.reify depth σ v = Some t →
  Store.reify depth σ' v = Some t.
Proof.
  induction depth as [|depth IH]; intros σ σ' v t Hsub; destruct v as [| | | |l];
    try done.
  simpl. destruct (σ !! l) as [o|] eqn:Hl; [|done].
  rewrite (lookup_weaken _ _ _ _ Hl Hsub).
  destruct o as [items|items].
  - case_decide as Hall; [|done]. intros [= <-].
    assert (Hsame : ∀ key item, items !! key = Some item →
              Store.reify depth σ' item = Store.reify depth σ item).
    { intros key item Hitem. destruct (Hall key item Hitem) as [t Ht].
      rewrite Ht. by eapply IH. }
    rewrite decide_True.
    + do 2 f_equal. apply map_eq. intros key. rewrite !lookup_omap.
      destruct (items !! key) as [item|] eqn:Hitem; [|done]. simpl. by eapply Hsame.
    + intros key item Hitem. rewrite (Hsame key item Hitem). by eapply Hall.
  - destruct (mapM _ items) as [elements|] eqn:Helements; [|done].
    intros Ht. simpl in Ht.
    assert (mapM (Store.reify depth σ') items = Some elements) as ->; [|done].
    apply mapM_Some. apply mapM_Some in Helements.
    eapply Forall2_impl; [done|]. intros. by eapply IH.
Qed.

Lemma read_dict_weaken σ σ' l items :
  σ ⊆ σ' → Store.read_dict σ l = Some items → Store.read_dict σ' l = Some items.
Proof.
  intros Hsub. unfold Store.read_dict.
  destruct (σ !! l) as [[]|] eqn:Hl; [|done..].
  by rewrite (lookup_weaken _ _ _ _ Hl Hsub).
Qed.

Lemma is_dict_ref σ v :
  Store.is_dict σ v = true →
  is_Some (Store.read_dict σ (Store.loc_of v)).
Proof. destruct v; simpl; try done. by intros ?%bool_decide_eq_true. Qed.

Lemma reify_dict_items depth σ l items :
  σ !! l = Some (Store.ODict items) →
  is_Some (Store.reify (S depth) σ (Store.RRef l)) →
  ∀ key v, items !! key = Some v → is_Some (Store.reify depth σ v).
Proof.
  intros Hl. simpl. rewrite Hl.
  case_decide as Hall; [|by intros [? ?]].
  intros _ key v Hv. by eapply Hall.
Qed.

(** The loop runs to its end when the nested calls return. *)
Lemma merge_loop_returns depth σ0 merged
    (overlay_items : gmap string Store.ref_value) :
  (∀ σ b o,
     is_Some (Store.read_dict σ b) → is_Some (Store.read_dict σ o) →
     is_Some (Store.reify depth σ (Store.RRef o)) →
     is_Some (Store._merge_dicts depth σ b o)) →
  σ0 !! merged = None →
  (∀ key v, overlay_items !! key = Some v → is_Some (Store.reify depth σ0 v)) →
  ∀ σ,
    σ0 ⊆ σ → is_Some (Store.read_dict σ merged) →
    ∃ σ', map_fold (merge_item depth merged) (Some σ) overlay_items = Some σ'
          ∧ σ0 ⊆ σ' ∧ is_Some (Store.read_dict σ' merged).
Proof.
  intros IH Hnew Hitems σ Hsub Hmerged.
  induction overlay_items as [|key v items Hfresh Hfirst IHitems]
    using map_first_key_ind.
  - rewrite map_fold_empty. by exists σ.
  - rewrite (map_fold_insert_first_key _ _ _ _ _ Hfresh Hfirst).
    destruct IHitems as (σ1 & -> & Hsub1 & [merged_items Hread]).
    { intros key' v' Hv'. apply (Hitems key' v').
      rewrite lookup_insert_ne; [done|]. intros <-. congruence. }
    assert (Hset : ∀ σ2 w, σ1 ⊆ σ2 →
      ∃ σ', Store.setitem σ2 merged key w = Some σ'
            ∧ σ0 ⊆ σ' ∧ is_Some (Store.read_dict σ' merged)).
    { intros σ2 w Hsub2. unfold Store.setitem.
      rewrite (read_dict_weaken _ _ _ _ Hsub2 Hread). simpl.
      eexists. split; [done|]. split.
      - apply insert_subseteq_r; [done|]. by trans σ1.
      - unfold Store.read_dict. rewrite lookup_insert_eq. by eexists. }
    unfold merge_item. simpl. rewrite Hread. simpl.
    destruct (merged_items !! key) as [current|]; [|by apply Hset].
    destruct (Store.is_dict σ1 v && Store.is_dict σ1 current) eqn:Hboth;
      [|by apply Hset].
    apply andb_prop in Hboth as [Hv Hcurrent].
    destruct (IH σ1 (Store.loc_of current) (Store.loc_of v)) as [[σ2 nested] Hrun].
    + by apply is_dict_ref.
    + by apply is_dict_ref.
    + destruct (Hitems key v) as [t Ht]; [by rewrite lookup_insert_eq|].
      destruct v; try done. exists t. by eapply reify_weaken.
    + rewrite Hrun. simpl. apply Hset.
      by apply store_merge_frame in Hrun as [? _].
Qed.

(** X18. The call returns: for a base that is a dictionary and an overlay
    that is a dictionary of finite depth, as many nested calls as the
    overlay is deep are enough. *)
Lemma store_merge_returns depth : ∀ σ base overlay,
  is_Some (Store.read_dict σ base) →
  is_Some (Store.read_dict σ overlay) →
  is_Some (Store.reify depth σ (Store.RRef overlay)) →
  is_Some (Store._merge_dicts depth σ base overlay).
Proof.
  induction depth as [|depth IH]; intros σ base overlay Hbase Hoverlay Hfinite.
  { by destruct Hfinite. }
  rewrite store_merge_unfold.
  destruct Hbase as [base_items ->]. destruct Hoverlay as [overlay_items Hoverlay].
  rewrite Hoverlay. simpl.
  destruct (merge_loop_returns depth σ (fresh (dom σ)) overlay_items IH)
    with (σ := <[fresh (dom σ) := Store.ODict base_items]> σ)
    as (σ' & -> & _).
  - apply fresh_unused.
  - unfold Store.read_dict in Hoverlay.
    destruct (σ !! overlay) as [[]|] eqn:Hl; simplify_eq.
    by eapply reify_dict_items.
  - apply insert_subseteq, fresh_unused.
  - unfold Store.read_dict. rewrite lookup_insert_eq. by eexists.
  - by eexists.
Qed.

(** *** The merge on the store computes the merge on values *)

Lemma reify_dict_lookup depth σ l items t :
  σ !! l = Some (Store.ODict items) →
  Store.reify (S depth) σ (Store.RRef l) = Some (VDict t) →
  ∀ key, entry_reads depth σ (items !! key) (t !! key).
Proof.
  intros Hl. simpl. rewrite Hl. case_decide as Hall; [|done].
  intros [= <-] key. unfold entry_reads. rewrite lookup_omap.
  destruct (items !! key) as [v|] eqn:Hv; [|done].
  simpl. split; [|done]. by eapply Hall.
Qed.

Lemma reify_dict_intro depth σ l items t :
  σ !! l = Some (Store.ODict items) →
  (∀ key, entry_reads depth σ (items !! key) (t !! key)) →
  Store.reify (S depth) σ (Store.RRef l) = Some (VDict t).
Proof.
  intros Hl Hreads. simpl. rewrite Hl. rewrite decide_True.
  - do 2 f_equal. apply map_eq. intros key. rewrite lookup_omap.
    specialize (Hreads key). unfold entry_reads in Hreads.
    destruct (items !! key); [by destruct Hreads|done].
  - intros key v Hv. specialize (Hreads key). rewrite Hv in Hreads.
    destruct Hreads as [Hsome ->]. done.
Qed.

Lemma reify_dict_inv depth σ v t :
  Store.reify depth σ v = Some (VDict t) →
  ∃ depth' l items,
    depth = S depth' ∧ v = Store.RRef l ∧ σ !! l = Some (Store.ODict items).
Proof.
  destruct depth as [|depth'], v as [| | | |l]; try done.
  simpl. destruct (σ !! l) as [[items|items]|] eqn:Hl; [| |done].
  - intros _. by exists depth', l, items.
  - by destruct (mapM _ items).
Qed.

Lemma reify_ref_dict depth σ l items t :
  σ !! l = Some (Store.ODict items) →
  Store.reify depth σ (Store.RRef l) = Some t →
  ∃ entries, t = VDict entries.
Proof.
  intros Hl. destruct depth as [|depth]; [done|]. simpl. rewrite Hl.
  case_decide; [|done]. intros [= <-]. by eexists.
Qed.

Lemma entry_reads_weaken depth σ σ' slot entry :
  σ ⊆ σ' → entry_reads depth σ slot entry → entry_reads depth σ' slot entry.
Proof.
  intros Hsub. destruct slot as [v|]; [|done].
  intros [[t ->] Hv]. split; [by eexists|]. by eapply reify_weaken.
Qed.

Lemma agree_subseteq (σ σr σr' : Store.store) :
  σr ⊆ σ → (∀ l, is_Some (σ !! l) → σr' !! l = σr !! l) → σr ⊆ σr'.
Proof.
  intros Hsub Hagree. apply map_subseteq_spec. intros l o Hl.
  rewrite Hagree; [done|]. exists o. by eapply lookup_weaken.
Qed.

(** Writing one slot of the dictionary under construction keeps the
    invariant, when the value written reads as the merged entry. *)
Lemma loop_invariant_setitem depth σ0 σr0 merged tb σ σr items to key w tw σ' :
  σ0 !! merged = None →
  σ0 ⊆ σ → σr ⊆ σ → σr !! merged = None →
  (∀ l, is_Some (σ0 !! l) → σr !! l = σr0 !! l) →
  Store.read_dict σ merged = Some items →
  (∀ key', key' ≠ key →
     entry_reads depth σr (items !! key')
       (merge_entry Utilities._merge_dicts (tb !! key') (to !! key'))) →
  Store.reify depth σr w = Some tw →
  merge_entry Utilities._merge_dicts (tb !! key) (to !! key) = Some tw →
  Store.setitem σ merged key w = Some σ' →
  loop_invariant depth σ0 σr0 merged tb σ' σr (<[key := w]> items) to.
Proof.
  intros Hnew Hsub Hsubr Hout Hagree Hread Hothers Hw Hentry.
  unfold Store.setitem. rewrite Hread. simpl. intros [= <-].
  unfold loop_invariant. split_and!; try done.
  - by apply insert_subseteq_r.
  - by apply insert_subseteq_r.
  - unfold Store.read_dict. by rewrite lookup_insert_eq.
  - intros key'. destruct (decide (key = key')) as [<-|Hne].
    + rewrite lookup_insert_eq, Hentry. by split.
    + rewrite lookup_insert_ne by done. by apply Hothers.
Qed.

(** [isinstance(v, dict)] on the store is [is_dict] on the tree. *)
Lemma reify_is_dict depth σr σ v t :
  σr ⊆ σ → Store.reify depth σr v = Some t → Store.is_dict σ v = is_dict t.
Proof.
  intros Hsub. destruct depth as [|depth], v as [| | | |l]; simpl;
    try (by intros [= <-]); try done.
  destruct (σr !! l) as [[items|items]|] eqn:Hl; [| |done].
  - case_decide; [|done]. intros [= <-]. simpl.
    apply bool_decide_eq_true. unfold Store.read_dict.
    by rewrite (lookup_weaken _ _ _ _ Hl Hsub).
  - destruct (mapM _ items); [|done]. intros [= <-]. simpl.
    apply bool_decide_eq_false. unfold Store.read_dict.
    rewrite (lookup_weaken _ _ _ _ Hl Hsub). by intros [? ?].
Qed.

(** The loop keeps the invariant, when the nested calls compute the
    merge of the nested trees. *)
Lemma merge_loop_refines fuel depth σ0 σr0 merged tb σs base_items :
  refines_at fuel depth →
  σ0 !! merged = None →
  σr0 ⊆ σ0 →
  loop_invariant depth σ0 σr0 merged tb σs σr0 base_items ∅ →
  ∀ (overlay_items : gmap string Store.ref_value) (to : gmap string value),
    (∀ key, entry_reads depth σr0 (overlay_items !! key) (to !! key)) →
    ∀ σ', map_fold (merge_item fuel merged) (Some σs) overlay_items = Some σ' →
    ∃ σr' items', loop_invariant depth σ0 σr0 merged tb σ' σr' items' to.
Proof.
  intros Hnested Hnew Hsubr0 Hstart overlay_items.
  induction overlay_items as [|key v items Hfresh Hfirst IH]
    using map_first_key_ind; intros to Hreads σ'.
  { rewrite map_fold_empty. intros [= <-]. exists σr0, base_items.
    assert (to = ∅) as ->; [|done].
    apply map_eq. intros key. rewrite lookup_empty.
    specialize (Hreads key). by rewrite lookup_empty in Hreads. }
  rewrite (map_fold_insert_first_key _ _ _ _ _ Hfresh Hfirst).
  destruct (map_fold (merge_item fuel merged) (Some σs) items) as [σ1|] eqn:Hfold;
    [|done].
  destruct (IH (delete key to)) with (σ' := σ1)
    as (σr1 & items1 & Hsub1 & Hsubr1 & Hout1 & Hagree1 & Hread1 & Hentries1);
    [|done|].
  { intros key'. destruct (decide (key = key')) as [<-|Hne].
    - by rewrite Hfresh, lookup_delete_eq.
    - specialize (Hreads key').
      by rewrite lookup_insert_ne in Hreads; [rewrite lookup_delete_ne|]. }
  assert (Hothers : ∀ key', key' ≠ key →
            entry_reads depth σr1 (items1 !! key')
              (merge_entry Utilities._merge_dicts (tb !! key') (to !! key'))).
  { intros key' Hne. specialize (Hentries1 key').
    by rewrite lookup_delete_ne in Hentries1. }
  pose proof (agree_subseteq _ _ _ Hsubr0 Hagree1) as Hsubr01.
  pose proof (Hreads key) as Hv. rewrite lookup_insert_eq in Hv.
  destruct Hv as [[tv Htv] Hv]. rewrite Htv in Hv.
  apply (reify_weaken _ _ _ _ _ Hsubr01) in Hv.
  pose proof (Hentries1 key) as Hcur. rewrite lookup_delete_eq in Hcur.
  unfold merge_item. simpl. rewrite Hread1. simpl.
  destruct (items1 !! key) as [current|] eqn:Hcurrent.
  - destruct Hcur as [[tcur Htcur] Hcur]. simpl in Hcur, Htcur.
    rewrite Htcur in Hcur.
    rewrite (reify_is_dict _ _ _ _ _ Hsubr1 Hv), (reify_is_dict _ _ _ _ _ Hsubr1 Hcur).
    destruct (is_dict tv && is_dict tcur) eqn:Hboth.
    + apply andb_prop in Hboth as [Hdv Hdcur].
      destruct tv as [| | | | |tov], tcur as [| | | | |tbc]; try done.
      destruct (reify_dict_inv _ _ _ _ Hv) as (? & lv & ? & _ & -> & _).
      destruct (reify_dict_inv _ _ _ _ Hcur) as (? & lc & ? & _ & -> & _).
      simpl.
      destruct (Store._merge_dicts fuel σ1 lc lv) as [[σ2 nested]|] eqn:Hrun;
        simpl; [|done].
      destruct (Hnested _ _ _ _ _ Hrun σr1 tbc tov Hsubr1 Hcur Hv)
        as (σr2 & Hsubr2 & Hagree2 & Hresult).
      apply store_merge_frame in Hrun as [Hsub2 _].
      pose proof (agree_subseteq _ _ _ Hsubr1 Hagree2) as Hsubr12.
      assert (Hmerged : is_Some (σ1 !! merged)).
      { unfold Store.read_dict in Hread1. destruct (σ1 !! merged); [by eexists|done]. }
      intros Hset. exists σr2, (<[key := Store.RRef nested]> items1).
      eapply (loop_invariant_setitem _ _ _ _ _ σ2); try done.
      * by trans σ1.
      * by rewrite Hagree2.
      * intros l Hl. rewrite Hagree2; [by apply Hagree1|].
        destruct Hl as [o Hl]. exists o. by eapply lookup_weaken.
      * by apply (read_dict_weaken σ1 σ2).
      * intros key' Hne. apply (entry_reads_weaken _ σr1); [done|]. by apply Hothers.
      * by rewrite Htv, Htcur.
    + intros Hset. exists σr1, (<[key := v]> items1).
      eapply (loop_invariant_setitem _ _ _ _ _ σ1); try done.
      rewrite Htv, Htcur. by destruct tcur, tv.
  - simpl in Hcur. intros Hset. exists σr1, (<[key := v]> items1).
    eapply (loop_invariant_setitem _ _ _ _ _ σ1); try done.
    rewrite Htv, Hcur. by destruct tv.
Qed.

Lemma read_dict_lookup σ l items :
  Store.read_dict σ l = Some items ↔ σ !! l = Some (Store.ODict items).
Proof.
  unfold Store.read_dict. destruct (σ !! l) as [[]|]; naive_solver.
Qed.

Lemma store_merge_refines_at fuel : ∀ depth, refines_at fuel depth.
Proof.
  induction fuel as [|fuel IH]; intros depth σ b o σ' r Hrun σr tb to Hsubr Hb Ho;
    [done|].
  destruct (reify_dict_inv _ _ _ _ Hb) as (d & ? & base_items & -> & [= <-] & Hlb).
  destruct (reify_dict_inv _ _ _ _ Ho) as (? & ? & overlay_items & [= <-] & [= <-] & Hlo).
  rewrite store_merge_unfold in Hrun.
  rewrite (proj2 (read_dict_lookup _ _ _) (lookup_weaken _ _ _ _ Hlb Hsubr)) in Hrun.
  rewrite (proj2 (read_dict_lookup _ _ _) (lookup_weaken _ _ _ _ Hlo Hsubr)) in Hrun.
  simpl in Hrun.
  set (merged := fresh (dom σ)) in *.
  assert (Hnew : σ !! merged = None) by apply fresh_unused.
  assert (Hout : σr !! merged = None).
  { destruct (σr !! merged) as [obj|] eqn:Hobj; [|done].
    by rewrite (lookup_weaken _ _ _ _ Hobj Hsubr) in Hnew. }
  destruct (map_fold _ _ overlay_items) as [σ1|] eqn:Hloop; simpl in Hrun; [|done].
  injection Hrun as <- <-.
  destruct (merge_loop_refines fuel d σ σr merged tb
              (<[merged := Store.ODict base_items]> σ) base_items (IH d) Hnew Hsubr)
    with (overlay_items := overlay_items) (to := to) (σ' := σ1)
    as (σr1 & items1 & Hsub1 & Hsubr1 & Hout1 & Hagree1 & Hread1 & Hentries1);
    [| |done|].
  { unfold loop_invariant. split_and!; try done.
    - by apply insert_subseteq.
    - by apply insert_subseteq_r.
    - unfold Store.read_dict. by rewrite lookup_insert_eq.
    - intros key. rewrite lookup_empty. simpl. by eapply reify_dict_lookup. }
  { by eapply reify_dict_lookup. }
  apply read_dict_lookup in Hread1.
  exists (<[merged := Store.ODict items1]> σr1). split_and!.
  - apply map_subseteq_spec. intros l obj.
    destruct (decide (merged = l)) as [<-|Hne].
    + rewrite lookup_insert_eq. by intros [= <-].
    + rewrite lookup_insert_ne by done. intros Hl. by eapply lookup_weaken.
  - intros l Hl. rewrite lookup_insert_ne; [by apply Hagree1|].
    intros <-. rewrite Hnew in Hl. by destruct Hl.
  - apply (reify_dict_intro _ _ _ items1); [by rewrite lookup_insert_eq|].
    intros key. rewrite merge_dicts_lookup.
    apply (entry_reads_weaken _ σr1); [by apply insert_subseteq|done].
Qed.

(** X19. The merge on the store refines the merge on values: when the base
    and the overlay read as the trees [tb] and [to] before the call,
    the result reads as [_merge_dicts tb to] after it. *)
Theorem store_merge_refines fuel σ base overlay σ' merged depth tb to :
  Store._merge_dicts fuel σ base overlay = Some (σ', merged) →
  Store.reify depth σ (Store.RRef base) = Some (VDict tb) →
  Store.reify depth σ (Store.RRef overlay) = Some (VDict to) →
  Store.reify depth σ' (Store.RRef merged)
  = Some (VDict (Utilities._merge_dicts tb to)).
Proof.
  intros Hrun Hb Ho.
  destruct (store_merge_refines_at fuel depth _ _ _ _ _ Hrun σ tb to)
    as (σr & Hsub & _ & Hresult); [done..|].
  by eapply reify_weaken.
Qed.

(** C9. When [_merge_dicts] returns, every object that was in the
    store is unchanged, the base and the mappings nested in it among
    them: whatever structure could be read below a value before the
    call is read below it after the call.  The result is a new
    object. *)
Theorem store_merge_never_mutates fuel σ base overlay σ' merged :
  Store._merge_dicts fuel σ base overlay = Some (σ', merged) →
  (∀ l o, σ !! l = Some o → σ' !! l = Some o)
  ∧ σ !! merged = None
  ∧ (∀ depth t, Store.reify depth σ (Store.RRef base) = Some t →
                Store.reify depth σ' (Store.RRef base) = Some t)
  ∧ (∀ depth v t, Store.reify depth σ v = Some t →
                  Store.reify depth σ' v = Some t).
Proof.
  intros Hrun. apply store_merge_frame in Hrun as [Hsub Hnew].
  split_and!; [|done|..].
  - intros l o Hl. by eapply lookup_weaken.
  - intros depth t. by apply reify_weaken.
  - intros depth v t. by apply reify_weaken.
Qed.

Lemma store_merge_never_mutates_witness :
  ∃ σ' merged,
    Store._merge_dicts 5 demo_store 1%positive 3%positive = Some (σ', merged)
    ∧ σ' !! 2%positive
      = Some (Store.ODict {[ "a" := Store.RInt 1; "b" := Store.RInt 2 ]})
    ∧ Store.reify 5 σ' (Store.RRef 1%positive)
      = Some (VDict {[ "timeout" := VInt 10;
                       "nested" := VDict {[ "a" := VInt 1; "b" := VInt 2 ]} ]}).
Proof.
  destruct (Store._merge_dicts 5 demo_store 1%positive 3%positive)
    as [[σ' merged]|] eqn:Hrun; [|by vm_compute in Hrun].
  exists σ', merged. split; [done|].
  destruct (store_merge_never_mutates _ _ _ _ _ _ Hrun) as (Hkeep & _ & Hbase & _).
  split.
  - apply Hkeep. reflexivity.
  - apply Hbase. vm_compute. reflexivity.
Defined.

Lemma store_merge_returns_witness :
  is_Some (Store._merge_dicts 5 demo_store 1%positive 3%positive).
Proof.
  apply store_merge_returns; eexists; vm_compute; reflexivity.
Defined.

Lemma store_merge_refines_witness :
  ∃ σ' merged,
    Store._merge_dicts 5 demo_store 1%positive 3%positive = Some (σ', merged)
    ∧ Store.reify 3 σ' (Store.RRef merged)
      = Some (VDict (Utilities._merge_dicts
          {[ "timeout" := VInt 10; "nested" := VDict {[ "a" := VInt 1; "b" := VInt 2 ]} ]}
          {[ "nested" := VDict {[ "b" := VInt 99 ]} ]})).
Proof.
  destruct (Store._merge_dicts 5 demo_store 1%positive 3%positive)
    as [[σ' merged]|] eqn:Hrun; [|by vm_compute in Hrun].
  exists σ', merged. split; [done|].
  apply (store_merge_refines _ _ _ _ _ _ _ _ _ Hrun); vm_compute; reflexivity.
Defined.

(** *** The result is a shallow copy *)

Lemma merge_loop_shares fuel σ0 merged (base_items : gmap string Store.ref_value)
    (overlay_items : gmap string Store.ref_value) : ∀ σ σ',
  σ0 !! merged = None → σ0 ⊆ σ →
  Store.read_dict σ merged = Some base_items →
  map_fold (merge_item fuel merged) (Some σ) overlay_items = Some σ' →
  ∃ merged_items,
    Store.read_dict σ' merged = Some merged_items
    ∧ (∀ key, overlay_items !! key = None → merged_items !! key = base_items !! key)
    ∧ (∀ key v, overlay_items !! key = Some v → base_items !! key = None →
                merged_items !! key = Some v).
Proof.
  intros σ σ' Hnew Hsub Hstart. revert σ'.
  induction overlay_items as [|k v items Hfresh Hfirst IH] using map_first_key_ind;
    intros σ'.
  { rewrite map_fold_empty. intros [= <-]. exists base_items. split_and!; done. }
  rewrite (map_fold_insert_first_key _ _ _ _ _ Hfresh Hfirst).
  destruct (map_fold (merge_item fuel merged) (Some σ) items) as [σ1|] eqn:Hfold;
    [|done].
  destruct (IH σ1 eq_refl) as (items1 & Hread1 & Hkeep & Hnewkeys).
  assert (Hset : ∀ σ2 w, σ1 ⊆ σ2 →
    (base_items !! k = None → w = v) →
    Store.setitem σ2 merged k w = Some σ' →
    ∃ merged_items,
      Store.read_dict σ' merged = Some merged_items
      ∧ (∀ key, <[k:=v]> items !! key = None → merged_items !! key = base_items !! key)
      ∧ (∀ key v', <[k:=v]> items !! key = Some v' → base_items !! key = None →
                   merged_items !! key = Some v')).
  { intros σ2 w Hsub2 Hw. unfold Store.setitem.
    rewrite (read_dict_weaken _ _ _ _ Hsub2 Hread1). simpl. intros [= <-].
    exists (<[k := w]> items1). split_and!.
    - unfold Store.read_dict. by rewrite lookup_insert_eq.
    - intros key Hkey. apply lookup_insert_None in Hkey as [Hkey Hne].
      rewrite lookup_insert_ne by done. by apply Hkeep.
    - intros key v' Hkey Hbase. destruct (decide (k = key)) as [<-|Hne].
      + rewrite lookup_insert_eq in Hkey |- *. injection Hkey as <-.
        by rewrite Hw.
      + rewrite lookup_insert_ne in Hkey |- * by done. by apply Hnewkeys. }
  unfold merge_item. simpl. rewrite Hread1. simpl.
  rewrite (Hkeep k Hfresh).
  destruct (base_items !! k) as [current|]; [|by apply Hset].
  destruct (Store.is_dict σ1 v && Store.is_dict σ1 current).
  - destruct (Store._merge_dicts fuel σ1 _ _) as [[σ2 nested]|] eqn:Hrun; simpl; [|done].
    apply store_merge_frame in Hrun as [Hsub2 _]. by apply Hset.
  - by apply Hset.
Qed.

(** X20. The result is a shallow copy: under a key the overlay does not
    have, the new dictionary holds what the base holds, and under a
    key only the overlay has, what the overlay holds; a nested object
    is then the same object, shared with the argument and not
    copied. *)
Theorem store_merge_shares fuel σ base overlay σ' merged
    (base_items overlay_items : gmap string Store.ref_value) :
  Store._merge_dicts fuel σ base overlay = Some (σ', merged) →
  Store.read_dict σ base = Some base_items →
  Store.read_dict σ overlay = Some overlay_items →
  ∃ merged_items,
    Store.read_dict σ' merged = Some merged_items
    ∧ (∀ key, overlay_items !! key = None → merged_items !! key = base_items !! key)
    ∧ (∀ key v, overlay_items !! key = Some v → base_items !! key = None →
                merged_items !! key = Some v).
Proof.
  destruct fuel as [|fuel]; [done|]. rewrite store_merge_unfold.
  intros Hrun Hbase Hoverlay. rewrite Hbase, Hoverlay in Hrun. simpl in Hrun.
  destruct (map_fold _ _ overlay_items) as [σ1|] eqn:Hloop; simpl in Hrun; [|done].
  injection Hrun as <- <-.
  eapply (merge_loop_shares fuel σ); [apply fresh_unused| | |done].
  - apply insert_subseteq, fresh_unused.
  - unfold Store.read_dict. by rewrite lookup_insert_eq.
Qed.

Lemma store_merge_shares_witness :
  ∃ σ' merged merged_items,
    Store._merge_dicts 5 demo_store 1%positive 4%positive = Some (σ', merged)
    ∧ Store.read_dict σ' merged = Some merged_items
    ∧ merged_items !! "nested" = Some (Store.RRef 2%positive).
Proof.
  destruct (Store._merge_dicts 5 demo_store 1%positive 4%positive)
    as [[σ' merged]|] eqn:Hrun; [|by vm_compute in Hrun].
  destruct (store_merge_shares _ _ _ _ _ _
              {[ "timeout" := Store.RInt 10; "nested" := Store.RRef 2%positive ]}
              {[ "b" := Store.RInt 99 ]} Hrun)
    as (merged_items & Hread & Hkeep & _); [reflexivity..|].
  exists σ', merged, merged_items. split_and!; [done..|].
  rewrite Hkeep; reflexivity.
Defined.

End store.

(** ** Tactic profiles *)

Section tactics.
Implicit Types (config_dict variants defaults : gmap string value) (profile : value).

Lemma fill_profile_dict defaults (items : gmap string value) :
  ConfigBuilder.fill_profile defaults (VDict items) = inr (VDict (items ∪ defaults)).
Proof.
  unfold ConfigBuilder.fill_profile.
  induction defaults as [|k v defaults Hfresh Hfirst IH] using map_first_key_ind.
  - by rewrite map_fold_empty, map_union_empty.
  - rewrite (map_fold_insert_first_key _ _ _ _ _ Hfresh Hfirst), IH.
    case_decide as Hk.
    + do 2 f_equal. apply map_eq. intros key. rewrite !lookup_union.
      destruct (decide (k = key)) as [<-|Hne].
      * rewrite lookup_union, Hfresh in Hk. rewrite lookup_insert_eq, Hfresh.
        destruct (items !! k); [done|]. by destruct Hk.
      * by rewrite lookup_insert_ne.
    + do 2 f_equal. apply insert_union_r.
      rewrite lookup_union in Hk. destruct (items !! k); [|done].
      destruct Hk. by destruct (defaults !! k).
Qed.

Lemma fill_profile_not_dict defaults profile :
  defaults ≠ ∅ → is_dict profile = false →
  ConfigBuilder.fill_profile defaults profile
  = inl (ConfigBuilder.Raised (AttributeError "object has no attribute 'keys'")).
Proof.
  intros Hne Hprofile. unfold ConfigBuilder.fill_profile.
  induction defaults as [|k v defaults Hfresh Hfirst IH] using map_first_key_ind;
    [done|].
  rewrite (map_fold_insert_first_key _ _ _ _ _ Hfresh Hfirst).
  destruct (decide (defaults = ∅)) as [->|Hmore].
  - rewrite map_fold_empty. by destruct profile.
  - by rewrite IH.
Qed.

Lemma fill_profile_fillable defaults profile :
  fillable defaults profile →
  ConfigBuilder.fill_profile defaults profile = inr (with_defaults defaults profile).
Proof.
  intros [->|Hdict].
  - unfold ConfigBuilder.fill_profile. rewrite map_fold_empty.
    destruct profile; simpl; try done. by rewrite map_union_empty.
  - destruct profile; try done. apply fill_profile_dict.
Qed.

Lemma fill_profile_success defaults profile filled :
  ConfigBuilder.fill_profile defaults profile = inr filled → fillable defaults profile.
Proof.
  intros Hfill. destruct (decide (defaults = ∅)) as [->|Hne]; [by left|].
  right. destruct (is_dict profile) eqn:Hdict; [done|].
  by rewrite fill_profile_not_dict in Hfill.
Qed.

(** The outer loop, when there are defaults: every profile is
    replaced by the filled one. *)
Lemma fill_variants_ok config_dict defaults variants : ∀ base,
  config_dict !! "tactic_default" = Some (VDict defaults) →
  map_Forall (λ _ profile, fillable defaults profile) variants →
  map_fold (ConfigBuilder.fill_variant config_dict) (inr base) variants
  = inr ((with_defaults defaults <$> variants) ∪ base).
Proof.
  intros base Hdefaults.
  induction variants as [|name profile variants Hfresh Hfirst IH]
    using map_first_key_ind; intros Hok.
  - by rewrite map_fold_empty, fmap_empty, map_empty_union.
  - rewrite (map_fold_insert_first_key _ _ _ _ _ Hfresh Hfirst).
    apply map_Forall_insert in Hok as [Hprofile Hrest]; [|done].
    rewrite IH by done.
    unfold ConfigBuilder.fill_variant. rewrite Hdefaults.
    rewrite fill_profile_fillable by done.
    by rewrite fmap_insert, insert_union_l.
Qed.

Lemma fill_variants_success config_dict defaults variants base filled :
  config_dict !! "tactic_default" = Some (VDict defaults) →
  map_fold (ConfigBuilder.fill_variant config_dict) (inr base) variants = inr filled →
  map_Forall (λ _ profile, fillable defaults profile) variants.
Proof.
  intros Hdefaults. revert filled.
  induction variants as [|name profile variants Hfresh Hfirst IH]
    using map_first_key_ind; intros filled.
  - intros _. apply map_Forall_empty.
  - rewrite (map_fold_insert_first_key _ _ _ _ _ Hfresh Hfirst).
    destruct (map_fold _ (inr base) variants) as [e|filled'] eqn:Hfold; [done|].
    unfold ConfigBuilder.fill_variant. rewrite Hdefaults.
    destruct (ConfigBuilder.fill_profile defaults profile) as [e|p] eqn:Hfill; [done|].
    intros _. apply map_Forall_insert; [done|]. split.
    + by eapply fill_profile_success.
    + by eapply IH.
Qed.

Lemma fill_variants_no_defaults config_dict variants e :
  (∀ name profile filled,
     ConfigBuilder.fill_variant config_dict name profile (inr filled) = inl e) →
  variants ≠ ∅ →
  ∀ base, map_fold (ConfigBuilder.fill_variant config_dict) (inr base) variants = inl e.
Proof.
  intros Hstep Hne base.
  induction variants as [|name profile variants Hfresh Hfirst IH]
    using map_first_key_ind; [done|].
  rewrite (map_fold_insert_first_key _ _ _ _ _ Hfresh Hfirst).
  destruct (decide (variants = ∅)) as [->|Hmore].
  - by rewrite map_fold_empty.
  - by rewrite IH.
Qed.

Lemma fill_variants_self defaults variants :
  (with_defaults defaults <$> variants) ∪ variants = with_defaults defaults <$> variants.
Proof.
  apply map_eq. intros name. rewrite lookup_union, lookup_fmap.
  by destruct (variants !! name).
Qed.

Lemma update_config_tactics_variants config_dict variants defaults :
  config_dict !! "tactic_variant" = Some (VDict variants) →
  config_dict !! "tactic_default" = Some (VDict defaults) →
  map_Forall (λ _ profile, fillable defaults profile) variants →
  ConfigBuilder.update_config_tactics config_dict
  = inr (<["tactic_variant" := VDict (with_defaults defaults <$> variants)]> config_dict).
Proof.
  intros Hvariants Hdefaults Hok. unfold ConfigBuilder.update_config_tactics.
  rewrite Hvariants. simpl. case_bool_decide as Hsize.
  - by rewrite (fill_variants_ok _ defaults), fill_variants_self.
  - assert (variants = ∅) as -> by (apply map_size_empty_inv; lia).
    rewrite fmap_empty. by rewrite insert_id.
Qed.



(** X22. The edge and error behaviour: a missing [tactic_variant] is a
    [KeyError]; a [tactic_variant] that is [None] or an empty mapping
    returns the configuration as it is, without [tactic_default] being
    looked at; with at least one variant, a missing [tactic_default]
    is a [KeyError] and one that is no mapping an [AttributeError];
    a [tactic_variant] that is neither [None] nor a mapping is an
    [AttributeError]. *)
Theorem update_config_tactics_edges config_dict :
  match config_dict !! "tactic_variant" with
  | None =>
      ConfigBuilder.update_config_tactics config_dict
      = inl (ConfigBuilder.KeyError "tactic_variant")
  | Some VNone => ConfigBuilder.update_config_tactics config_dict = inr config_dict
  | Some (VDict variants) =>
      if decide (variants = ∅)
      then ConfigBuilder.update_config_tactics config_dict = inr config_dict
      else
        match config_dict !! "tactic_default" with
        | None =>
            ConfigBuilder.update_config_tactics config_dict
            = inl (ConfigBuilder.KeyError "tactic_default")
        | Some (VDict _) => True
        | Some _ =>
            ConfigBuilder.update_config_tactics config_dict
            = inl (ConfigBuilder.Raised (AttributeError "object has no attribute 'items'"))
        end
  | Some _ =>
      ConfigBuilder.update_config_tactics config_dict
      = inl (ConfigBuilder.Raised (AttributeError "object has no attribute 'keys'"))
  end.
Proof.
  unfold ConfigBuilder.update_config_tactics.
  destruct (config_dict !! "tactic_variant") as [[| | | | |variants]|] eqn:Hvariants;
    simpl; try done.
  case_decide as Hempty.
  { subst. by rewrite map_size_empty. }
  assert (Hsize : 0 < size variants).
  { destruct (decide (size variants = 0)) as [Hzero|]; [|lia].
    by apply map_size_empty_inv in Hzero. }
  rewrite bool_decide_eq_true_2 by done.
  assert (Hloop : ∀ e,
    (∀ name profile filled,
       ConfigBuilder.fill_variant config_dict name profile (inr filled) = inl e) →
    map_fold (ConfigBuilder.fill_variant config_dict) (inr variants) variants = inl e).
  { intros e He. by apply fill_variants_no_defaults. }
  destruct (config_dict !! "tactic_default") as [[]|] eqn:Hdefaults; try done;
    (erewrite Hloop; [done|]);
    intros name profile filled; simpl; by rewrite Hdefaults.
Qed.

Lemma with_defaults_again defaults profile :
  with_defaults defaults (with_defaults defaults profile) = with_defaults defaults profile.
Proof.
  destruct profile; simpl; try done.
  by rewrite <- (assoc_L (∪)), (idemp_L (∪)).
Qed.

Lemma with_defaults_fillable defaults profile :
  fillable defaults profile → fillable defaults (with_defaults defaults profile).
Proof. intros [->|Hdict]; [by left|]. right. by destruct profile. Qed.

(** X23. Running the function on its own result changes nothing: a filled
    configuration is filled. *)
Theorem update_config_tactics_idempotent config_dict updated :
  ConfigBuilder.update_config_tactics config_dict = inr updated →
  ConfigBuilder.update_config_tactics updated = inr updated.
Proof.
  intros Hrun. pose proof Hrun as Hfirst.
  unfold ConfigBuilder.update_config_tactics in Hrun.
  destruct (config_dict !! "tactic_variant") as [[| | | | |variants]|] eqn:Hvariants;
    simpl in Hrun; try done.
  { by simplify_eq. }
  case_bool_decide as Hsize; [|by simplify_eq].
  destruct (map_fold _ _ variants) as [e|filled] eqn:Hloop; [done|].
  assert (Hne : variants ≠ ∅).
  { intros ->. rewrite map_size_empty in Hsize. lia. }
  destruct (config_dict !! "tactic_default") as [[| | | | |defaults]|] eqn:Hdefaults;
    try (rewrite (fill_variants_no_defaults config_dict variants
                    (ConfigBuilder.Raised (AttributeError "object has no attribute 'items'")))
           in Hloop; [done| |done];
         intros name profile acc; simpl; by rewrite Hdefaults).
  2:{ rewrite (fill_variants_no_defaults config_dict variants
                 (ConfigBuilder.KeyError "tactic_default")) in Hloop; [done| |done].
      intros name profile acc. simpl. by rewrite Hdefaults. }
  pose proof (fill_variants_success _ _ _ _ _ Hdefaults Hloop) as Hok.
  rewrite (fill_variants_ok _ defaults) in Hloop by done.
  rewrite fill_variants_self in Hloop. simplify_eq.
  rewrite (update_config_tactics_variants _ (with_defaults defaults <$> variants) defaults).
  - rewrite insert_insert_eq. do 3 f_equal.
    apply map_eq. intros name. rewrite !lookup_fmap.
    destruct (variants !! name); [|done]. simpl. by rewrite with_defaults_again.
  - by rewrite lookup_insert_eq.
  - by rewrite lookup_insert_ne.
  - intros name profile. rewrite lookup_fmap.
    destruct (variants !! name) as [p|] eqn:Hp; [|done].
    intros [= <-]. apply with_defaults_fillable. by eapply Hok.
Qed.

Lemma update_config_tactics_idempotent_witness :
  ConfigBuilder.update_config_tactics
    {[ "tactic_default" := VDict {[ "depth" := VInt 3; "timeout" := VInt 10 ]};
       "tactic_variant" :=
         VDict {[ "fast" := VDict {[ "depth" := VInt 3; "timeout" := VInt 1 ]} ]} ]}
  = inr {[ "tactic_default" := VDict {[ "depth" := VInt 3; "timeout" := VInt 10 ]};
           "tactic_variant" :=
             VDict {[ "fast" := VDict {[ "depth" := VInt 3; "timeout" := VInt 1 ]} ]} ]}.
Proof.
  apply (update_config_tactics_idempotent
    {[ "tactic_default" := VDict {[ "depth" := VInt 3; "timeout" := VInt 10 ]};
       "tactic_variant" := VDict {[ "fast" := VDict {[ "timeout" := VInt 1 ]} ]} ]}).
  vm_compute. reflexivity.
Defined.

End tactics.


(** ** Worked examples *)

(** The end-to-end example of the specification: the overlay changes
    one nested field and leaves its sibling. *)
Example merge_end_to_end :
  Utilities._merge_dicts
    {[ "timeout" := VInt 10; "nested" := VDict {[ "a" := VInt 1; "b" := VInt 2 ]} ]}
    {[ "nested" := VDict {[ "b" := VInt 99 ]} ]}
  = {[ "timeout" := VInt 10; "nested" := VDict {[ "a" := VInt 1; "b" := VInt 99 ]} ]}.
Proof. vm_compute. reflexivity. Qed.

(** A sequence replaces a mapping, and a mapping a scalar, as a whole. *)
Example merge_replaces_whole :
  Utilities._merge_dicts
    {[ "a" := VDict {[ "x" := VInt 1 ]}; "b" := VInt 2 ]}
    {[ "a" := VList [VInt 7]; "b" := VDict {[ "y" := VInt 3 ]} ]}
  = {[ "a" := VList [VInt 7]; "b" := VDict {[ "y" := VInt 3 ]} ]}.
Proof. vm_compute. reflexivity. Qed.

(** The Python primitives on the inputs the package meets. *)
Example str_split_examples :
  Py.str_split "." "a/b.yml" = ["a/b"; "yml"]
  ∧ Py.str_split "." "a.b.yml" = ["a"; "b"; "yml"]
  ∧ Py.str_split "." "" = [""]
  ∧ Py.str_split "." "a." = ["a"; ""].
Proof. repeat split; reflexivity. Qed.

Example os_path_split_examples :
  Py.os_path_split "a/b.prod.yml" = ("a", "b.prod.yml")
  ∧ Py.os_path_split "/x" = ("/", "x")
  ∧ Py.os_path_split "a//b" = ("a", "b")
  ∧ Py.os_path_split "a/b/" = ("a/b", "")
  ∧ Py.os_path_split "//x" = ("//", "x")
  ∧ Py.os_path_split "abc" = ("", "abc").
Proof. repeat split; reflexivity. Qed.

Example str_replace_examples :
  Py.str_replace "ab" "X" "cababab" = "cXXX"
  ∧ Py.str_replace "/" "." "a/b/c" = "a.b.c"
  ∧ Py.str_replace "" "-" "abc" = "-a-b-c-"
  ∧ Py.str_replace "aa" "" "aaa" = "a".
Proof. repeat split; reflexivity. Qed.

(** The package path is the location with dots; a location that
    repeats the file name loses it. *)
Example split_package_file_path_examples :
  Utilities._split_package_file_path "x/y/b.prod.yml" = ("x.y", "b.prod.yml")
  ∧ Utilities._split_package_file_path "a.yml" = ("", "a.yml")
  ∧ Utilities._split_package_file_path "conf/conf" = ("", "conf").
Proof. repeat split; reflexivity. Qed.

(** An empty variant still adds a segment, and a path without a dot
    gets the variant in front. *)
Example new_file_path_examples :
  Utilities.new_file_path "a.b.ext" "v" = "a.b.v.ext"
  ∧ Utilities.new_file_path "a.yml" "" = "a..yml"
  ∧ Utilities.new_file_path "abc" "prod" = "prod.abc".
Proof. repeat split; reflexivity. Qed.

(** The merge on the store gives the tree the merge on values gives. *)
Example store_merge_demo :
  match Store._merge_dicts 5 demo_store 1%positive 3%positive with
  | Some (σ, r) => Store.reify 5 σ (Store.RRef r)
  | None => None
  end
  = Some (VDict (Utilities._merge_dicts
       {[ "timeout" := VInt 10; "nested" := VDict {[ "a" := VInt 1; "b" := VInt 2 ]} ]}
       {[ "nested" := VDict {[ "b" := VInt 99 ]} ]})).
Proof. vm_compute. reflexivity. Qed.

(** A missing overlay file leaves the base as it is. *)
Example missing_overlay_example :
  ChimeraConf.manifest ChimeraForm.initial demo_resources
    (permissive "Settings" (PrivateAttr (VList [VStr "conf/base.yml"]))) None None
  = inr {[ "x" := VInt 1 ]}.
Proof. vm_compute. reflexivity. Qed.

(** The defaults fill what a profile lacks and leave what it has. *)
Example update_config_tactics_example :
  ConfigBuilder.update_config_tactics
    {[ "tactic_default" := VDict {[ "depth" := VInt 3; "timeout" := VInt 10 ]};
       "tactic_variant" :=
         VDict {[ "fast" := VDict {[ "timeout" := VInt 1 ]};
                  "deep" := VDict {[ "depth" := VInt 9 ]} ]} ]}
  = inr {[ "tactic_default" := VDict {[ "depth" := VInt 3; "timeout" := VInt 10 ]};
           "tactic_variant" :=
             VDict {[ "fast" := VDict {[ "depth" := VInt 3; "timeout" := VInt 1 ]};
                      "deep" := VDict {[ "depth" := VInt 9; "timeout" := VInt 10 ]} ]} ]}.
Proof. vm_compute. reflexivity. Qed.

(** What a reader raises goes through as it is: a path without a
    directory gives the reader's [ValueError], also with an override. *)
Example reader_failure_example :
  ChimeraConf.manifest ChimeraForm.initial strict_resources
    (permissive "Settings" Undeclared) None (Some ["a.yml"])
  = inl (ValueError "Empty module name").
Proof. vm_compute. reflexivity. Qed.
